(** * bill_compare: the finance tool server and the reconciliation client

    A shallow embedding of [my_finance_mcp_server.py] (module [Server]) and
    of [compare.py] (module [Client]), with the properties of the
    specification stated over them.

    Python [float] is IEEE binary64: it is modelled by Rocq's primitive
    floats.  Python [str] is a sequence of Unicode code points: on the server,
    where the code maps case, it is a [list N]; on the client, where strings
    are only concatenated and written to a UTF-8 file, it is a [string]. *)

From Stdlib Require Import ZArith NArith List String Ascii Bool Lia.
From Stdlib Require Import Floats.
From stdpp Require Import gmap strings list fin_maps.

Set Warnings "-inexact-float".

(** ** Python strings as code points *)

Abbreviation pystr := (list N).

(** A literal of the source that holds ASCII characters only. *)
Definition lit (s : string) : pystr :=
  map (fun a => N_of_ascii a) (list_ascii_of_string s).

(** ** The tool server, [my_finance_mcp_server.py] *)

Module Server.

Section Upper.

(** [str.upper()] maps every code point on its own through Unicode's full
    upper-case mapping, which gives one to three code points.  On ASCII
    the mapping is the one written here; above ASCII it is the table of
    the interpreter's Unicode database, which the model takes as it is. *)
Variable unicode_upper : N -> list N.

Definition upper_char (c : N) : list N :=
  if (97 <=? c)%N && (c <=? 122)%N then [(c - 32)%N]
  else if (c <? 128)%N then [c]
  else unicode_upper c.

Definition upper (s : pystr) : pystr := flat_map upper_char s.

(** [rates = {"USD": 7.2, "EUR": 7.8}] *)
Definition rates : gmap (list N) float :=
  <[lit "USD" := 7.2%float]> (<[lit "EUR" := 7.8%float]> ∅).

(** [return rates.get(currency.upper(), 1.0)] *)
Definition get_exchange_rate (currency : pystr) : float :=
  default 1.0%float (rates !! upper currency).

End Upper.

(** The tools registered by the two [@mcp.tool()] decorators, in order: each
    under the name of its function, described by its docstring. *)
Definition registered : list (string * string) :=
  [ ("get_exchange_rate", "Get the exchange rate for a currency.");
    ("get_fee_description",
     "Get description for potential fees based on amount.") ].

Definition international_fee : string :=
  "Possible 3% international transaction fee".
Definition standard_fee : string := "Standard transaction fee".

(** [if amount > 1000: return ...; return ...].  The comparison of a float
    with the integer 1000 is exact, and 1000 is a binary64 value. *)
Definition get_fee_description (amount : float) : string :=
  if (1000 <? amount)%float then international_fee else standard_fee.

End Server.

(** ** The reconciliation client, [compare.py] *)

Module Client.

Definition nl : string := String (ascii_of_nat 10) EmptyString.

(** *** Time stamps *)

(** A [datetime] value, as [datetime.now()] returns it. *)
Record datetime := {
  year : N; month : N; day : N;
  hour : N; minute : N; second : N; microsecond : N
}.

Definition dec_digit (n : N) : ascii := ascii_of_N (48 + n mod 10).

(** [%m], [%d], [%H], [%M]: two decimal digits, zero padded. *)
Definition pad2 (n : N) : string :=
  String (dec_digit (n / 10)) (String (dec_digit n) EmptyString).

(** [%Y]: the year with its century, four digits from the year 1000 on. *)
Definition pad4 (n : N) : string :=
  String (dec_digit (n / 1000)) (String (dec_digit (n / 100))
    (String (dec_digit (n / 10)) (String (dec_digit n) EmptyString))).

(** [strftime("%Y%m%d_%H%M")] *)
Definition strftime (t : datetime) : string :=
  pad4 (year t) ++ pad2 (month t) ++ pad2 (day t) ++ "_"
    ++ pad2 (hour t) ++ pad2 (minute t).

(** [f"comparison_log_{timestamp}.txt"] *)
Definition log_filename (t : datetime) : string :=
  "comparison_log_" ++ strftime t ++ ".txt".

(** *** Tables and tool handles *)

Inductive cell := CStr (s : string) | CFloat (x : float).

(** A [pd.DataFrame] built from a dict of columns. *)
Definition dataframe := list (string * list cell).

Definition internal_df : dataframe :=
  [ ("trans_id", [CStr "T101"; CStr "T102"; CStr "T103"]);
    ("date", [CStr "2023-10-01"; CStr "2023-10-02"; CStr "2023-10-03"]);
    ("amount", [CFloat 150.00; CFloat 200.00; CFloat 3000.00]);
    ("desc", [CStr "Starbucks Coffee"; CStr "Apple Store";
              CStr "Business Flight"]) ].

Definition bank_df : dataframe :=
  [ ("bank_ref", [CStr "B_REF_01"; CStr "B_REF_02"; CStr "B_REF_03"]);
    ("bank_date", [CStr "2023-10-01"; CStr "2023-10-02"; CStr "2023-10-04"]);
    ("bank_amount", [CFloat 150.00; CFloat 200.00; CFloat 3090.00]);
    ("bank_desc", [CStr "SBUX #4829 SEATTLE"; CStr "APPLE.COM/BILL";
                   CStr "AIRLINE TICKETS"]) ].

(** [df[column]] and [df[column][i]] *)
Definition column (df : dataframe) (name : string) : option (list cell) :=
  snd <$> find (fun c => String.eqb (fst c) name) df.

Definition at_ (df : dataframe) (name : string) (i : nat) : option cell :=
  column df name ≫= (fun c => c !! i).

(** What a handle invokes: a tool of the server, over the transport, or a
    query engine over a table. *)
Inductive backing := Remote | QueryEngine (df : dataframe).

Record tool := {
  t_name : string;
  t_description : string;
  t_backing : backing
}.

(** [local_tools]: the two [QueryEngineTool]s with their [ToolMetadata]. *)
Definition local_tools : list tool :=
  [ {| t_name := "internal_records";
       t_description :=
         "查询公司内部系统的交易记录，包含 trans_id, date, amount, desc";
       t_backing := QueryEngine internal_df |};
    {| t_name := "bank_statement";
       t_description :=
         "查询银行导出的账单明细，包含 bank_ref, bank_date, bank_amount, bank_desc";
       t_backing := QueryEngine bank_df |} ].

(** [all_tools = mcp_tools + local_tools] *)
Definition all_tools (mcp_tools : list tool) : list tool :=
  mcp_tools ++ local_tools.

(** What the discovery gives when it returns: one handle per tool the server
    of this repository registers, under the registered name and
    description. *)
Definition remote_tools : list tool :=
  map (fun r => {| t_name := fst r; t_description := snd r;
                   t_backing := Remote |}) Server.registered.

(** *** Exceptions, sinks and the state of the process *)

Inductive exn :=
| ValueError (msg : string)
| OSError (msg : string)
| UnicodeEncodeError (msg : string)
| Failure (what : string).
(** [Failure] stands for whatever a collaborator raises: a transport or
    connection error, a tool invocation error, a model backend error. *)

(** File objects are referred to by identity. *)
Abbreviation handle := nat.

(** What a closed file object raises when written or flushed. *)
Definition closed_file : exn := ValueError "I/O operation on closed file.".

(** A text file object: its name, whether it is closed, and the text it has
    taken and not yet written out to the file. *)
Record file_object := {
  fo_name : string;
  fo_closed : bool;
  fo_buffer : list string
}.

(** What [sys.stdout] can hold: the interpreter's own stream, or a [Logger]
    with its two attributes. *)
Inductive sink :=
| Terminal
| LoggerObj (terminal : sink) (log : handle).

(** The calls into the collaborators, with the arguments the client passes. *)
Inductive ext_call :=
| CDeepSeek (model api_key : string) (temperature : Z)
| CBasicMCPClient (args : list string)
| CMcpToolSpec
| CToolList
| CPandasQueryEngine (df : dataframe)
| CFunctionAgent (name : string) (tools : list tool) (system_prompt : string)
| CAgentRun (tools : list tool) (request : string).

Inductive event :=
| EvOpen (name : string) (h : handle)
| EvClose (h : handle)
| EvStdout (s : sink)
| EvCall (c : ext_call).

Record state := {
  stdout : sink;                       (* sys.stdout *)
  console : list string;               (* received by the terminal *)
  disk : gmap string (list string);    (* file name to the text in the file *)
  objects : list file_object;          (* the file objects created so far *)
  trace : list event
}.

Definition with_stdout (s : sink) (st : state) : state :=
  {| stdout := s; console := console st; disk := disk st;
     objects := objects st; trace := trace st |}.
Definition with_console (c : list string) (st : state) : state :=
  {| stdout := stdout st; console := c; disk := disk st;
     objects := objects st; trace := trace st |}.
Definition with_disk (d : gmap string (list string)) (st : state) : state :=
  {| stdout := stdout st; console := console st; disk := d;
     objects := objects st; trace := trace st |}.
Definition with_objects (o : list file_object) (st : state) : state :=
  {| stdout := stdout st; console := console st; disk := disk st;
     objects := o; trace := trace st |}.
Definition log_event (e : event) (st : state) : state :=
  {| stdout := stdout st; console := console st; disk := disk st;
     objects := objects st; trace := trace st ++ [e] |}.

(** A computation: it returns or raises, and leaves a state. *)
Definition M (A : Type) : Type := state -> (exn + A) * state.

Definition ret {A} (a : A) : M A := fun st => (inr a, st).
Definition raise {A} (e : exn) : M A := fun st => (inl e, st).
Definition bind {A B} (m : M A) (f : A -> M B) : M B :=
  fun st => match m st with
            | (inr a, st1) => f a st1
            | (inl e, st1) => (inl e, st1)
            end.

Declare Scope py_scope.
Delimit Scope py_scope with py.
Notation "'do' x <- m ; k" := (bind m (fun x => k))
  (at level 10, x name, m at level 100, k at level 200,
   format "'[v' 'do'  x  <-  m ; '/' k ']'") : py_scope.
Notation "'run' m ; k" := (bind m (fun _ => k))
  (at level 10, m at level 100, k at level 200,
   format "'[v' 'run'  m ; '/' k ']'") : py_scope.
Local Open Scope py_scope.

(** [try: body finally: fin].  The final block runs on every exit of the
    body; an exception of the body is raised again after it, unless the final
    block raises one of its own. *)
Definition try_finally {A} (body : M A) (fin : M unit) : M A :=
  fun st => match body st with
            | (r, st1) => match fin st1 with
                          | (inr _, st2) => (r, st2)
                          | (inl e, st2) => (inl e, st2)
                          end
            end.

(** What a collaborator does when called: it prints through [sys.stdout]
    (the verbose output), then returns or raises. *)
Record ext (A : Type) := { ext_out : list string; ext_res : exn + A }.
Arguments ext_out {A} _.
Arguments ext_res {A} _.

(** The elements of [l] at the positions where [mask] holds [true]. *)
Fixpoint masked {A} (mask : list bool) (l : list A) : list A :=
  match mask, l with
  | true :: mask', x :: l' => x :: masked mask' l'
  | false :: mask', _ :: l' => masked mask' l'
  | _, _ => []
  end.

(** A failed writing out of buffered text: the error raised, how many of the
    buffered texts reached the file before it, and which of the others are
    still buffered afterwards.  The io layers differ in what survives a
    failure, so the environment decides. *)
Record fault := {
  fault_exn : exn;
  fault_written : nat;
  fault_kept : list bool
}.

(** The environment of one run of the client.  The terminal and the file
    system can refuse what they are given: the terminal a text its encoding
    does not hold, or a flush; the log a text that utf-8 does not hold (a
    lone surrogate); the file system the writing out of buffered text.  The
    file object decides when its buffer is written out. *)
Record world := {
  environ : gmap string string;        (* the environment of the process *)
  dotenv : gmap string string;         (* the assignments of the .env file *)
  now : datetime;                      (* what datetime.now() returns *)
  term_accepts : string -> bool;       (* the terminal's encoding holds it *)
  term_flush : option exn;             (* what a flush of the terminal raises *)
  can_open : string -> bool;           (* open(name, "w") succeeds *)
  log_accepts : string -> bool;        (* utf-8 holds the text *)
  buffer_full : list string -> string -> bool;
                        (* this write makes the file object write out *)
  disk_error : string -> list string -> list string -> option fault;
                      (* file name, text in the file, text to write out *)
  w_deepseek : ext unit;
  w_client : ext unit;
  w_spec : ext unit;
  w_tool_list : ext unit;
  w_engine : dataframe -> ext unit;
  w_agent : list tool -> ext unit;
  w_run : list tool -> string -> ext string
}.

(** *** The operations of one run *)

Section Run.

Variable w : world.

Definition lift {A} (r : exn + A) : M A := fun st => (r, st).
Definition emit (e : event) : M unit := fun st => (inr tt, log_event e st).

(** [open(filename, "w", encoding="utf-8")]: the file is created or
    truncated, and a new file object returned. *)
Definition open_w (filename : string) : M handle := fun st =>
  if can_open w filename then
    let h := length (objects st) in
    (inr h,
     log_event (EvOpen filename h)
       (with_objects
          (objects st ++ [{| fo_name := filename; fo_closed := false;
                             fo_buffer := [] |}])
          (with_disk (<[filename := []]> (disk st)) st)))
  else (inl (OSError filename), st).

(** The state of a file object and of its file after text was written
    out. *)
Definition written (h : handle) (fo : file_object) (text buf : list string)
    (st : state) : state :=
  with_objects
    (<[h := {| fo_name := fo_name fo; fo_closed := fo_closed fo;
               fo_buffer := buf |}]> (objects st))
    (with_disk (<[fo_name fo := text]> (disk st)) st).

(** The buffered text of a file object is written out to its file.  With
    nothing buffered there is nothing to write.  When the file system
    refuses, the error is raised; a first part of the buffer may have
    reached the file, and of the rest some may still be buffered. *)
Definition write_out (h : handle) (fo : file_object) : M unit := fun st =>
  match fo_buffer fo with
  | [] => (inr tt, st)
  | _ :: _ =>
      let text := default [] (disk st !! fo_name fo) in
      match disk_error w (fo_name fo) text (fo_buffer fo) with
      | Some ft =>
          (inl (fault_exn ft),
           written h fo (text ++ take (fault_written ft) (fo_buffer fo))
             (masked (fault_kept ft) (drop (fault_written ft) (fo_buffer fo)))
             st)
      | None => (inr tt, written h fo (text ++ fo_buffer fo) [] st)
      end
  end.

(** [f.write(message)] on a file object.  A closed file raises; a text the
    encoding does not hold raises before anything is taken; otherwise the
    text is buffered, and the buffer written out when the file object
    decides so: when that fails the write raises, with the text among what
    may have reached the file or stayed buffered.  Every handle in use comes
    from [open_w], so the last case is never reached. *)
Definition file_write (h : handle) (message : string) : M unit := fun st =>
  match objects st !! h with
  | Some fo =>
      if fo_closed fo then (inl closed_file, st)
      else if negb (log_accepts w message) then
        (inl (UnicodeEncodeError message), st)
      else
        let pending := {| fo_name := fo_name fo; fo_closed := false;
                          fo_buffer := fo_buffer fo ++ [message] |} in
        if buffer_full w (fo_buffer fo) message then write_out h pending st
        else (inr tt, with_objects (<[h := pending]> (objects st)) st)
  | None => (inl closed_file, st)
  end.

(** [f.flush()] on a file object: the buffer is written out. *)
Definition file_flush (h : handle) : M unit := fun st =>
  match objects st !! h with
  | Some fo => if fo_closed fo then (inl closed_file, st) else write_out h fo st
  | None => (inl closed_file, st)
  end.

(** [f.close()]: the buffer is written out and the file object is closed,
    also when the writing out fails: then the error is raised, and the
    buffered text that did not reach the file is gone.  Closing a closed
    file object does nothing. *)
Definition file_close (h : handle) : M unit := fun st =>
  match objects st !! h with
  | Some fo =>
      if fo_closed fo then (inr tt, log_event (EvClose h) st)
      else
        match write_out h fo st with
        | (r, st1) =>
            (r,
             log_event (EvClose h)
               (with_objects
                  (<[h := {| fo_name := fo_name fo; fo_closed := true;
                             fo_buffer := [] |}]> (objects st1)) st1))
        end
  | None => (inr tt, log_event (EvClose h) st)
  end.

(** [write] of a sink.  For a [Logger] it is
    [self.terminal.write(message); self.log.write(message)]. *)
Fixpoint sink_write (s : sink) (message : string) : M unit :=
  match s with
  | Terminal => fun st =>
      if term_accepts w message then
        (inr tt, with_console (console st ++ [message]) st)
      else (inl (UnicodeEncodeError message), st)
  | LoggerObj t h =>
      run sink_write t message;
      file_write h message
  end.

(** [flush] of a sink.  For a [Logger] it is
    [self.terminal.flush(); self.log.flush()]. *)
Fixpoint sink_flush (s : sink) : M unit :=
  match s with
  | Terminal => fun st =>
      match term_flush w with
      | Some e => (inl e, st)
      | None => (inr tt, st)
      end
  | LoggerObj t h =>
      run sink_flush t;
      file_flush h
  end.

(** [sys.stdout.write(message)] *)
Definition sys_write (message : string) : M unit := fun st =>
  sink_write (stdout st) message st.

(** [print(message)] writes the text and then the line end. *)
Definition print (message : string) : M unit :=
  run sys_write message;
  sys_write nl.

(** [sys.stdout = s] *)
Definition set_stdout (s : sink) : M unit := fun st =>
  (inr tt, log_event (EvStdout s) (with_stdout s st)).

(** [Logger(filename)]: [__init__] reads [sys.stdout], then opens the
    file. *)
Definition Logger (filename : string) : M sink := fun st =>
  let terminal := stdout st in
  (do h <- open_w filename;
   ret (LoggerObj terminal h)) st.

Fixpoint write_each (l : list string) : M unit :=
  match l with
  | [] => ret tt
  | x :: l' => run sys_write x; write_each l'
  end.

(** A call of a collaborator. *)
Definition call {A} (c : ext_call) (r : ext A) : M A :=
  run emit (EvCall c);
  run write_each (ext_out r);
  lift (ext_res r).

(** [mcp_spec.to_tool_list_async()]: the transport may fail; when it does
    not, the handles are those of the tools the server registers. *)
Definition discovery : ext (list tool) :=
  {| ext_out := ext_out (w_tool_list w);
     ext_res := match ext_res (w_tool_list w) with
                | inl e => inl e
                | inr _ => inr remote_tools
                end |}.

(** *** Start-up: lines 14 to 24 *)

(** [load_dotenv()] adds the assignments of the .env file to the
    environment, and keeps the variables that are set already. *)
Definition load_dotenv : gmap string string := environ w ∪ dotenv w.

Definition getenv (name : string) : option string := load_dotenv !! name.

Definition api_key : option string := getenv "DEEPSEEK_API_KEY".

(** [not v] for [v] a string or [None] *)
Definition not_ (v : option string) : bool :=
  match v with
  | None => true
  | Some EmptyString => true
  | Some _ => false
  end.

Definition no_api_key : string :=
  "未检测到 API Key。请在 .env 文件中设置 DEEPSEEK_API_KEY。".

(** [if not api_key: raise ValueError(...)] *)
Definition configuration : exn + string :=
  if not_ api_key then inl (ValueError no_api_key)
  else inr (default EmptyString api_key).

(** *** [main] *)

Definition system_prompt : string :=
  "你是一个财务对账机器人。
    你的任务是对比内部记录和银行账单。
    1. 首先分别查询内部记录和银行账单，找到可能匹配的项。
    2. 如果金额不完全一致（例如差异在3%以内），请务必利用工具（如 get_fee_description）分析是否为手续费或汇率原因。
    3. 如果商户名称不同，利用你的常识判断它们是否指向同一个实体（如 SBUX 指 Starbucks）。
    4. 给出清晰、专业的对账总结。".

Definition request : string :=
  "请帮我核对内部记录和银行账单中的所有交易。请逐一对比各项，解释任何金额、日期或描述上的差异，并给出完整的对账报告。".

(** Lines 120 to 128: the request to the agent and the report. *)
Definition report (tools : list tool) (log_filename : string) : M unit :=
  run print (nl ++ "--- 开始对账任务 ---");
  do response <- call (CAgentRun tools request) (w_run w tools request);
  run print (nl ++ "--- AI 对账结论 ---");
  run print response;
  print (nl ++ "[系统通知] 日志已保存至: " ++ log_filename).

Definition main_body (log_filename : string) : M unit :=
  do _ <- call (CBasicMCPClient ["my_finance_mcp_server.py"]) (w_client w);
  do _ <- call CMcpToolSpec (w_spec w);
  do mcp_tools <- call CToolList discovery;
  do _ <- call (CPandasQueryEngine internal_df) (w_engine w internal_df);
  do _ <- call (CPandasQueryEngine bank_df) (w_engine w bank_df);
  let tools := all_tools mcp_tools in
  do _ <- call (CFunctionAgent "FinanceAgent" tools system_prompt)
            (w_agent w tools);
  report tools log_filename.

(** The [finally] block:
    [if isinstance(sys.stdout, Logger): sys.stdout.log.close();
     sys.stdout = sys.stdout.terminal] *)
Definition restore : M unit := fun st =>
  match stdout st with
  | LoggerObj t h => (run file_close h; set_stdout t) st
  | Terminal => (inr tt, st)
  end.

Definition main : M unit :=
  let filename := log_filename (now w) in
  do logger <- Logger filename;
  run set_stdout logger;
  try_finally (main_body filename) restore.

(** The script: the module level, then [asyncio.run(main())]. *)
Definition script : M unit :=
  do key <- lift configuration;
  do _ <- call (CDeepSeek "deepseek-chat" key 0) (w_deepseek w);
  main.

End Run.

End Client.

Import Server.
Import Client.
Local Open Scope py_scope.

(** ** Vocabulary of the statements *)

(** The ASCII case mapping, on one code point. *)
Definition ascii_upper (c : N) : N :=
  if (97 <=? c)%N && (c <=? 122)%N then (c - 32)%N else c.

(** The integer a binary64 value holds, when it holds one. *)
Definition exact_Z (x : float) : option Z :=
  match Prim2SF x with
  | S754_zero _ => Some 0%Z
  | S754_finite s m e =>
      if (0 <=? e)%Z then
        let v := (Z.pos m * 2 ^ e)%Z in Some (if s then (- v)%Z else v)
      else if (Z.pos m mod 2 ^ (- e) =? 0)%Z then
        let v := (Z.pos m / 2 ^ (- e))%Z in Some (if s then (- v)%Z else v)
      else None
  | _ => None
  end.

(** The row of a table that holds [key] in the column [key_column], and a
    cell of that row. *)
Fixpoint index_of (key : cell -> bool) (l : list cell) : option nat :=
  match l with
  | [] => None
  | c :: l' => if key c then Some 0 else S <$> index_of key l'
  end.

Definition is_str (s : string) (c : cell) : bool :=
  match c with CStr s' => String.eqb s s' | CFloat _ => false end.

Definition cell_of (df : dataframe) (key_column key name : string)
  : option cell :=
  match column df key_column with
  | Some keys =>
      match index_of (is_str key) keys with
      | Some i => at_ df name i
      | None => None
      end
  | None => None
  end.

(** Two instants of the same calendar minute. *)
Definition same_minute (a b : datetime) : Prop :=
  year a = year b /\ month a = month b /\ day a = day b
  /\ hour a = hour b /\ minute a = minute b.

(** The ranges of the fields of a [datetime], for the years of four digits:
    there [%Y] gives the same text on every platform. *)
Definition valid_datetime (t : datetime) : Prop :=
  (1000 <= year t <= 9999 /\ 1 <= month t <= 12 /\ 1 <= day t <= 31
   /\ hour t < 24 /\ minute t < 60 /\ second t < 60
   /\ microsecond t < 1000000)%N.

(** The order of two instants, to the minute. *)
Definition minute_compare (a b : datetime) : comparison :=
  match (year a ?= year b)%N with
  | Eq => match (month a ?= month b)%N with
          | Eq => match (day a ?= day b)%N with
                  | Eq => match (hour a ?= hour b)%N with
                          | Eq => (minute a ?= minute b)%N
                          | c => c
                          end
                  | c => c
                  end
          | c => c
          end
  | c => c
  end.

(** *** The state of a run *)

(** The text in a file, and the text a file object has taken: what is in
    its file and what it still buffers. *)
Definition text_of (st : state) (filename : string) : list string :=
  default [] (disk st !! filename).

Definition held (st : state) (h : handle) : list string :=
  match objects st !! h with
  | Some fo => text_of st (fo_name fo) ++ fo_buffer fo
  | None => []
  end.

Definition is_open_in (st : state) (h : handle) : bool :=
  match objects st !! h with
  | Some fo => negb (fo_closed fo)
  | None => false
  end.

(** The file objects by name and by whether they are closed. *)
Definition shape (st : state) : list (string * bool) :=
  map (fun fo => (fo_name fo, fo_closed fo)) (objects st).

(** The state after a sequence of [sys.stdout.write] calls, whether each
    returns or raises. *)
Definition attempts (w : world) (msgs : list string) (st : state) : state :=
  fold_left (fun st m => snd (sys_write w m st)) msgs st.

Definition add_calls (cs : list ext_call) (st : state) : state :=
  {| stdout := stdout st; console := console st; disk := disk st;
     objects := objects st; trace := trace st ++ map EvCall cs |}.

(** The agent is built and run with the handles of the discovery followed by
    the two local ones. *)
Definition tools_ok (c : ext_call) : Prop :=
  match c with
  | CFunctionAgent _ tools _ | CAgentRun tools _ =>
      tools = all_tools remote_tools
  | _ => True
  end.

(** A call made before the agent is built. *)
Definition before_agent (c : ext_call) : Prop :=
  match c with
  | CFunctionAgent _ _ _ | CAgentRun _ _ => False
  | _ => True
  end.

(** The calls of [main], in the order of the source. *)
Definition planned_calls (tools : list tool) : list ext_call :=
  [ CBasicMCPClient ["my_finance_mcp_server.py"];
    CMcpToolSpec;
    CToolList;
    CPandasQueryEngine internal_df;
    CPandasQueryEngine bank_df;
    CFunctionAgent "FinanceAgent" tools system_prompt;
    CAgentRun tools request ].

(** What the discovery returned, and no handle when it raised. *)
Definition discovered (w : world) : list tool :=
  match ext_res (w_tool_list w) with
  | inr _ => remote_tools
  | inl _ => []
  end.

(** From [st] the computation makes exactly the calls [cs], besides writing
    through [sys.stdout]; and it makes a prefix of [plan], each call as [P]
    says. *)
Definition makes (w : world) {A} (m : M A) (st : state)
    (cs : list ext_call) : Prop :=
  exists msgs, snd (m st) = add_calls cs (attempts w msgs st).

Definition follows (w : world) (P : ext_call -> Prop) {A} (m : M A)
    (st : state) (plan : list ext_call) : Prop :=
  exists cs, makes w m st cs /\ cs `prefix_of` plan /\ Forall P cs.

(** The state once the capture is in place: the log created empty, its file
    object open, and [sys.stdout] the [Logger] over the sink found. *)
Definition installed (filename : string) (st : state) : state :=
  let h := length (objects st) in
  {| stdout := LoggerObj (stdout st) h;
     console := console st;
     disk := <[filename := []]> (disk st);
     objects := objects st ++ [{| fo_name := filename; fo_closed := false;
                                  fo_buffer := [] |}];
     trace := trace st ++ [EvOpen filename h;
                           EvStdout (LoggerObj (stdout st) h)] |}.

(** The sink below the [Logger] of a run is the terminal, or the [Logger] of
    an earlier run, over the terminal, whose log is closed. *)
Definition terminal_like (st : state) (t : sink) : Prop :=
  t = Terminal
  \/ exists h0 fo, t = LoggerObj Terminal h0
                   /\ objects st !! h0 = Some fo /\ fo_closed fo = true.

(** The state of an active capture: the sink below the [Logger], the text
    in the file and the text in the buffer. *)
Definition capture_at (t : sink) (h : handle) (f : string)
    (d b : list string) (st : state) : Prop :=
  stdout st = LoggerObj t h
  /\ objects st !! h = Some {| fo_name := f; fo_closed := false;
                               fo_buffer := b |}
  /\ disk st !! f = Some d
  /\ terminal_like st t.

(** The capture is active: [sys.stdout] is a [Logger] over [t] whose [log]
    is the open file object [h] of the file [f]. *)
Definition capture_over (t : sink) (st : state) (h : handle) (f : string)
  : Prop :=
  stdout st = LoggerObj t h
  /\ (exists buf, objects st !! h
                  = Some {| fo_name := f; fo_closed := false;
                            fo_buffer := buf |})
  /\ is_Some (disk st !! f)
  /\ terminal_like st t.

Definition capture_on (st : state) (h : handle) (f : string) : Prop :=
  capture_over Terminal st h f.

(** The state of a capture after the terminal took [out], with [text] in
    the file and [buf] in the buffer of the log. *)
Definition took (h : handle) (f : string) (out text buf : list string)
    (st : state) : state :=
  {| stdout := stdout st;
     console := console st ++ out;
     disk := <[f := text]> (disk st);
     objects := <[h := {| fo_name := f; fo_closed := false;
                          fo_buffer := buf |}]> (objects st);
     trace := trace st |}.

(** Every write of the sequence returns. *)
Fixpoint all_return (w : world) (msgs : list string) (st : state) : Prop :=
  match msgs with
  | [] => True
  | m :: msgs' =>
      fst (sys_write w m st) = inr tt
      /\ all_return w msgs' (snd (sys_write w m st))
  end.

(** The log never fails: utf-8 holds every text, and the file system takes
    every text. *)
Definition reliable_log (w : world) : Prop :=
  (forall m, log_accepts w m = true)
  /\ (forall name text buf, disk_error w name text buf = None).

(** Under an active capture over the terminal the computation ends with
    [r], having made the calls [cs] and printed [out], every write having
    returned. *)
Definition emits (w : world) (h : handle) (f : string) {A} (m : M A)
    (r : exn + A) (cs : list ext_call) (out : list string) : Prop :=
  forall st, capture_on st h f ->
    m st = (r, add_calls cs (attempts w out st)).

(** Every collaborator returns up to the construction of the agent. *)
Definition ready (w : world) : Prop :=
  ext_res (w_client w) = inr tt
  /\ ext_res (w_spec w) = inr tt
  /\ ext_res (w_tool_list w) = inr tt
  /\ ext_res (w_engine w internal_df) = inr tt
  /\ ext_res (w_engine w bank_df) = inr tt
  /\ ext_res (w_agent w (all_tools remote_tools)) = inr tt.

(** What is printed up to the construction of the agent, up to the end of
    its run, and by a run in which the agent answers [response]. *)
Definition transcript_setup (w : world) : list string :=
  ext_out (w_client w) ++ ext_out (w_spec w) ++ ext_out (w_tool_list w)
  ++ ext_out (w_engine w internal_df) ++ ext_out (w_engine w bank_df)
  ++ ext_out (w_agent w (all_tools remote_tools)).

Definition transcript_to_run (w : world) : list string :=
  transcript_setup w
  ++ [(nl ++ "--- 开始对账任务 ---")%string; nl]
  ++ ext_out (w_run w (all_tools remote_tools) request).

Definition transcript (w : world) (response : string) : list string :=
  transcript_to_run w
  ++ [(nl ++ "--- AI 对账结论 ---")%string; nl; response; nl;
      (nl ++ "[系统通知] 日志已保存至: " ++ log_filename (now w))%string; nl].

(** The state a run leaves when it started from the terminal, made the calls
    [cs], printed [out], and its log took and kept all of it. *)
Definition after_run (w : world) (cs : list ext_call) (out : list string)
    (st : state) : state :=
  let f := log_filename (now w) in
  let h := length (objects st) in
  {| stdout := Terminal;
     console := console st ++ out;
     disk := <[f := out]> (disk st);
     objects := objects st ++ [{| fo_name := f; fo_closed := true;
                                  fo_buffer := [] |}];
     trace := trace st ++ [EvOpen f h; EvStdout (LoggerObj Terminal h)]
              ++ map EvCall cs ++ [EvClose h; EvStdout Terminal] |}.

(** The state after the file object [h] of the file [f] was closed, with
    [d] in the file. *)
Definition sealed (h : handle) (f : string) (d : list string) (st : state)
  : state :=
  {| stdout := stdout st;
     console := console st;
     disk := <[f := d]> (disk st);
     objects := <[h := {| fo_name := f; fo_closed := true;
                          fo_buffer := [] |}]> (objects st);
     trace := trace st ++ [EvClose h] |}.

(** The state a run leaves, from any sink: the terminal took [out], the file
    of the log holds [d] and its file object is closed; [sys.stdout] is the
    sink found when the closing returned ([restored]), and is still the
    [Logger] of the run when the closing raised. *)
Definition finished (w : world) (restored : bool) (cs : list ext_call)
    (out d : list string) (st : state) : state :=
  let f := log_filename (now w) in
  let h := length (objects st) in
  {| stdout := if restored then stdout st else LoggerObj (stdout st) h;
     console := console st ++ out;
     disk := <[f := d]> (disk st);
     objects := objects st ++ [{| fo_name := f; fo_closed := true;
                                  fo_buffer := [] |}];
     trace := trace st ++ [EvOpen f h; EvStdout (LoggerObj (stdout st) h)]
              ++ map EvCall cs
              ++ (if restored then [EvClose h; EvStdout (stdout st)]
                  else [EvClose h]) |}.

(** The state the script is in when it enters [main]: the model client was
    built, and what its construction printed went to the sink found. *)
Definition client_built (w : world) (key : string) (st : state) : state :=
  {| stdout := stdout st;
     console := console st ++ ext_out (w_deepseek w);
     disk := disk st;
     objects := objects st;
     trace := trace st ++ [EvCall (CDeepSeek "deepseek-chat" key 0)] |}.

Definition is_close (e : event) : bool :=
  match e with EvClose _ => true | _ => false end.
Definition is_assign (e : event) : bool :=
  match e with EvStdout _ => true | _ => false end.
Definition is_open (e : event) : bool :=
  match e with EvOpen _ _ => true | _ => false end.

(** *** Runs to try the definitions on *)

(** A collaborator that prints nothing and returns. *)
Definition returns {A} (a : A) : ext A := {| ext_out := []; ext_res := inr a |}.

Definition sample_time : datetime :=
  {| year := 2023; month := 10; day := 5; hour := 14; minute := 30;
     second := 12; microsecond := 0 |}.

(** Nothing fails: every call returns, the terminal and the log take every
    text, the agent prints one line while it runs. *)
Definition world_with (env file : gmap string string) (t : datetime) : world :=
  {| environ := env;
     dotenv := file;
     now := t;
     term_accepts := fun _ => true;
     term_flush := None;
     can_open := fun _ => true;
     log_accepts := fun _ => true;
     buffer_full := fun _ _ => false;
     disk_error := fun _ _ _ => None;
     w_deepseek := returns tt;
     w_client := returns tt;
     w_spec := returns tt;
     w_tool_list := returns tt;
     w_engine := fun _ => returns tt;
     w_agent := fun _ => returns tt;
     w_run := fun _ _ =>
       {| ext_out := ["Thought: compare the tables"]; ext_res := inr "report" |} |}.

Definition sample_world : world :=
  world_with {["DEEPSEEK_API_KEY" := "sk-test"]} ∅ sample_time.

(** The variable is set, and set to the empty string. *)
Definition empty_key_world : world :=
  world_with {["DEEPSEEK_API_KEY" := ""]} ∅ sample_time.

(** The variable is set by the .env file only. *)
Definition dotenv_world : world :=
  world_with ∅ {["DEEPSEEK_API_KEY" := "sk-file"]} sample_time.

(** The variable is set to the empty string in the environment, and to a
    key in the .env file. *)
Definition shadowed_world : world :=
  world_with {["DEEPSEEK_API_KEY" := ""]} {["DEEPSEEK_API_KEY" := "sk-file"]}
    sample_time.

(** A later run within the same minute. *)
Definition later_world : world :=
  world_with {["DEEPSEEK_API_KEY" := "sk-test"]} ∅
    {| year := 2023; month := 10; day := 5; hour := 14; minute := 30;
       second := 48; microsecond := 250 |}.

(** The sample run with other collaborators, and with another terminal and
    file system. *)
Definition with_outcomes (tool_list : ext unit) (answer : ext string)
    (w : world) : world :=
  {| environ := environ w; dotenv := dotenv w; now := now w;
     term_accepts := term_accepts w; term_flush := term_flush w;
     can_open := can_open w; log_accepts := log_accepts w;
     buffer_full := buffer_full w; disk_error := disk_error w;
     w_deepseek := w_deepseek w; w_client := w_client w; w_spec := w_spec w;
     w_tool_list := tool_list;
     w_engine := w_engine w; w_agent := w_agent w;
     w_run := fun _ _ => answer |}.

Definition with_io (term log : string -> bool) (opens : string -> bool)
    (full : list string -> string -> bool)
    (failing : string -> list string -> list string -> option fault)
    (w : world) : world :=
  {| environ := environ w; dotenv := dotenv w; now := now w;
     term_accepts := term; term_flush := term_flush w;
     can_open := opens; log_accepts := log;
     buffer_full := full; disk_error := failing;
     w_deepseek := w_deepseek w; w_client := w_client w; w_spec := w_spec w;
     w_tool_list := w_tool_list w;
     w_engine := w_engine w; w_agent := w_agent w;
     w_run := w_run w |}.

(** A run in a directory that cannot be written. *)
Definition read_only_world : world :=
  with_io (fun _ => true) (fun _ => true) (fun _ => false)
    (fun _ _ => false) (fun _ _ _ => None) sample_world.

(** A run whose server does not start, and a run whose model backend
    fails. *)
Definition no_server_world : world :=
  with_outcomes {| ext_out := []; ext_res := inl (Failure "connection") |}
    (returns "report") sample_world.

Definition no_backend_world : world :=
  with_outcomes (returns tt)
    {| ext_out := ["Thought: compare the tables"];
       ext_res := inl (Failure "backend") |} sample_world.

(** A run on a full disk: the log buffers what it is given, and the
    writing out fails with nothing written. *)
Definition no_space : fault :=
  {| fault_exn := OSError "No space left on device";
     fault_written := 0; fault_kept := [] |}.

Definition full_disk_world : world :=
  with_io (fun _ => true) (fun _ => true) (fun _ => true)
    (fun _ _ => false) (fun _ _ _ => Some no_space) sample_world.

(** A run on a disk that fills up: every write is written out at once, and
    once the file holds two texts the writing out fails after the text has
    reached the file. *)
Definition filling_disk_world : world :=
  with_io (fun _ => true) (fun _ => true) (fun _ => true)
    (fun _ _ => true)
    (fun _ text _ =>
       if (2 <=? length text)%nat
       then Some {| fault_exn := OSError "No space left on device";
                    fault_written := 1; fault_kept := [] |}
       else None) sample_world.



(** A terminal that shows ASCII text only. *)
Definition ascii_terminal_world : world :=
  with_io (fun m => forallb (fun a => (N_of_ascii a <? 128)%N)
                      (list_ascii_of_string m))
    (fun _ => true) (fun _ => true) (fun _ _ => false) (fun _ _ _ => None)
    sample_world.

Definition initial : state :=
  {| stdout := Terminal; console := []; disk := ∅; objects := []; trace := [] |}.

Definition capturing : state := installed (log_filename sample_time) initial.

(** ** Properties of the tool server *)

Section ServerFacts.

Variable u : N -> list N.

Lemma rates_lookup (k : pystr) :
  rates !! k =
    if decide (k = lit "USD") then Some 7.2%float
    else if decide (k = lit "EUR") then Some 7.8%float
    else None.
Proof.
  unfold rates.
  rewrite lookup_insert. destruct (decide (lit "USD" = k)) as [<-|Hu].
  - rewrite decide_True; reflexivity.
  - rewrite decide_False by congruence.
    rewrite lookup_insert. destruct (decide (lit "EUR" = k)) as [<-|He].
    + rewrite decide_True; reflexivity.
    + rewrite decide_False by congruence. apply lookup_empty.
Qed.

Lemma rates_dom : dom rates = ({[lit "USD"; lit "EUR"]} : gset (list N)).
Proof. unfold rates. rewrite !dom_insert_L, dom_empty_L. set_solver. Qed.

Lemma upper_ascii (s : pystr) :
  Forall (fun c => (c < 128)%N) s -> upper u s = map ascii_upper s.
Proof.
  induction 1 as [|c s Hc _ IH]; [reflexivity|].
  unfold upper in *. cbn [flat_map map]. rewrite IH.
  unfold upper_char, ascii_upper.
  destruct ((97 <=? c)%N && (c <=? 122)%N); [reflexivity|].
  apply N.ltb_lt in Hc. rewrite Hc. reflexivity.
Qed.

Lemma upper_app (s t : pystr) : upper u (s ++ t) = upper u s ++ upper u t.
Proof. unfold upper. apply flat_map_app. Qed.

End ServerFacts.

(** *** Order of binary64 values *)

Lemma SFcompare_antisym (x y : spec_float) :
  SFcompare y x = option_map CompOpp (SFcompare x y).
Proof.
  destruct x as [sx|sx| |sx mx ex], y as [sy|sy| |sy my ey];
    try destruct sx; try destruct sy; try reflexivity; cbn.
  all: rewrite (Z.compare_antisym ey ex);
    destruct (ey ?= ex)%Z; cbn; try reflexivity;
    rewrite (Pos.compare_cont_antisym mx my Eq); cbn;
    rewrite ?CompOpp_involutive; reflexivity.
Qed.

Lemma float_leb_not_ltb (x y : float) :
  (x <=? y)%float = true -> (y <? x)%float = false.
Proof.
  rewrite leb_spec, ltb_spec. unfold SFleb, SFltb.
  rewrite (SFcompare_antisym (Prim2SF x) (Prim2SF y)).
  destruct (SFcompare (Prim2SF x) (Prim2SF y)) as [[]|]; cbn; congruence.
Qed.

(** ** The claims about the tool server *)

(** C1: a currency whose upper-cased form is a key of the rate mapping gets
    the mapped value, whatever its case; every other string gets exactly
    1.0.  In particular "usd" gives 7.2, "eur" gives 7.8 and "gbp" gives
    1.0. *)
Theorem get_exchange_rate_spec (u : N -> list N) (currency : pystr) :
  (forall v, rates !! upper u currency = Some v ->
             get_exchange_rate u currency = v)
  /\ (rates !! upper u currency = None ->
      get_exchange_rate u currency = 1.0%float)
  /\ (upper u currency = lit "USD" -> get_exchange_rate u currency = 7.2%float)
  /\ (upper u currency = lit "EUR" -> get_exchange_rate u currency = 7.8%float)
  /\ (upper u currency <> lit "USD" -> upper u currency <> lit "EUR" ->
      get_exchange_rate u currency = 1.0%float)
  /\ (forall other, upper u other = upper u currency ->
                    get_exchange_rate u other = get_exchange_rate u currency)
  /\ get_exchange_rate u (lit "usd") = 7.2%float
  /\ get_exchange_rate u (lit "eur") = 7.8%float
  /\ get_exchange_rate u (lit "gbp") = 1.0%float.
Proof.
  unfold get_exchange_rate. rewrite rates_lookup.
  repeat split.
  - intros v Hv. rewrite Hv. reflexivity.
  - intros ->. reflexivity.
  - intros ->. reflexivity.
  - intros ->. reflexivity.
  - intros Hu He. rewrite !decide_False by assumption. reflexivity.
  - intros other ->. rewrite rates_lookup. reflexivity.
Qed.

(** Every spelling of a key in ASCII letters of either case is in the
    mapping: the lookup is case-insensitive. *)
Lemma get_exchange_rate_caseless (u : N -> list N) (currency key : pystr) :
  Forall (fun c => (c < 128)%N) currency ->
  map ascii_upper currency = key ->
  get_exchange_rate u currency = default 1.0%float (rates !! key).
Proof.
  intros Hascii <-. unfold get_exchange_rate.
  rewrite upper_ascii by assumption. reflexivity.
Qed.

Example get_exchange_rate_mixed_case u :
  get_exchange_rate u (lit "uSd") = 7.2%float
  /\ get_exchange_rate u (lit "Eur") = 7.8%float
  /\ get_exchange_rate u (lit "") = 1.0%float
  /\ get_exchange_rate u (lit "US") = 1.0%float.
Proof. repeat split. Qed.

(** C10: the lookup is total: on every string, the empty one and text that
    names no currency included, it returns a value and raises nothing, and
    the value is one of 7.2, 7.8 and 1.0, each of which some string gets. *)
Theorem get_exchange_rate_total (u : N -> list N) (currency : pystr) :
  (exists r, get_exchange_rate u currency = r
             /\ (r = 7.2%float \/ r = 7.8%float \/ r = 1.0%float))
  /\ (exists c, get_exchange_rate u c = 7.2%float)
  /\ (exists c, get_exchange_rate u c = 7.8%float)
  /\ (exists c, get_exchange_rate u c = 1.0%float)
  /\ get_exchange_rate u [] = 1.0%float.
Proof.
  split.
  - eexists. split; [reflexivity|].
    unfold get_exchange_rate. rewrite rates_lookup.
    destruct (decide (upper u currency = lit "USD")); [left; reflexivity|].
    destruct (decide (upper u currency = lit "EUR"));
      [right; left; reflexivity | right; right; reflexivity].
  - split; [exists (lit "usd"); reflexivity|].
    split; [exists (lit "eur"); reflexivity|].
    split; [exists (lit "gbp"); reflexivity|reflexivity].
Qed.

(** C2: an amount strictly above 1000 gets the international-fee message;
    an amount below or equal to 1000, the boundary 1000 included, gets the
    standard-fee message.  3000 gets the first and 150 the second. *)
Theorem get_fee_description_spec (amount : float) :
  ((1000 <? amount)%float = true ->
   get_fee_description amount = international_fee)
  /\ ((amount <=? 1000)%float = true ->
      get_fee_description amount = standard_fee)
  /\ get_fee_description 1000 = standard_fee
  /\ get_fee_description 3000 = international_fee
  /\ get_fee_description 150 = standard_fee
  /\ international_fee <> standard_fee.
Proof.
  unfold get_fee_description. repeat split.
  - intros ->. reflexivity.
  - intros Hle. rewrite (float_leb_not_ltb _ _ Hle). reflexivity.
  - discriminate.
Qed.

(** The values next to the boundary, and the values that are not numbers. *)
Example get_fee_description_edges :
  get_fee_description (next_up 1000) = international_fee
  /\ get_fee_description (next_down 1000) = standard_fee
  /\ get_fee_description infinity = international_fee
  /\ get_fee_description neg_infinity = standard_fee
  /\ get_fee_description nan = standard_fee.
Proof. repeat split. Qed.

(** C7: in the sample tables the bank amount of the pair T103/B_REF_03 is
    the internal amount times 1.03, a difference of exactly 3 percent; the
    internal amount, 3000, is above the threshold 1000, so the fee tool
    gives the international-fee message for it; and the dates of the pair
    are 2023-10-03 and 2023-10-04. *)
Theorem t103_pair :
  exists a b : float,
    cell_of internal_df "trans_id" "T103" "amount" = Some (CFloat a)
    /\ cell_of bank_df "bank_ref" "B_REF_03" "bank_amount" = Some (CFloat b)
    /\ (a * 1.03)%float = b
    /\ ((b - a) / a)%float = 0.03%float
    /\ (exists za zb, exact_Z a = Some za /\ exact_Z b = Some zb
                      /\ (zb * 100 = za * 103)%Z /\ za = 3000%Z)
    /\ (1000 <? a)%float = true
    /\ get_fee_description a = international_fee
    /\ cell_of internal_df "trans_id" "T103" "date" = Some (CStr "2023-10-03")
    /\ cell_of bank_df "bank_ref" "B_REF_03" "bank_date"
       = Some (CStr "2023-10-04").
Proof.
  exists 3000%float, 3090%float.
  split; [reflexivity|]. split; [reflexivity|].
  split; [vm_compute; reflexivity|]. split; [vm_compute; reflexivity|].
  split.
  - exists 3000%Z, 3090%Z. repeat split; vm_compute; reflexivity.
  - repeat split; vm_compute; reflexivity.
Qed.

(** The other two pairs agree in amount and in date. *)
Example matching_pairs :
  cell_of internal_df "trans_id" "T101" "amount"
    = cell_of bank_df "bank_ref" "B_REF_01" "bank_amount"
  /\ cell_of internal_df "trans_id" "T101" "date"
     = cell_of bank_df "bank_ref" "B_REF_01" "bank_date"
  /\ cell_of internal_df "trans_id" "T102" "amount"
     = cell_of bank_df "bank_ref" "B_REF_02" "bank_amount"
  /\ cell_of internal_df "trans_id" "T102" "date"
     = cell_of bank_df "bank_ref" "B_REF_02" "bank_date".
Proof. repeat split. Qed.

(** ** The name of the run log *)

Lemma dec_digit_inj (a b : N) :
  dec_digit a = dec_digit b -> (a mod 10 = b mod 10)%N.
Proof.
  unfold dec_digit. intros H.
  assert (Ha : (a mod 10 < 10)%N) by (apply N.mod_upper_bound; discriminate).
  assert (Hb : (b mod 10 < 10)%N) by (apply N.mod_upper_bound; discriminate).
  apply (f_equal N_of_ascii) in H.
  rewrite !N_ascii_embedding in H by lia.
  lia.
Qed.

Lemma digits2 (a : N) :
  (a < 100)%N -> (a = 10 * ((a / 10) mod 10) + a mod 10)%N.
Proof.
  intros Ha.
  assert (H1 : (a / 10 < 10)%N) by (apply N.Div0.div_lt_upper_bound; lia).
  rewrite (N.mod_small (a / 10) 10) by assumption.
  apply N.div_mod. discriminate.
Qed.

Lemma digits4 (a : N) :
  (a < 10000)%N ->
  (a = 1000 * ((a / 1000) mod 10) + 100 * ((a / 100) mod 10)
       + 10 * ((a / 10) mod 10) + a mod 10)%N.
Proof.
  intros Ha.
  replace (a / 1000)%N with (a / 10 / 10 / 10)%N
    by (rewrite !N.Div0.div_div; reflexivity).
  replace (a / 100)%N with (a / 10 / 10)%N
    by (rewrite !N.Div0.div_div; reflexivity).
  assert (H3 : (a / 10 / 10 / 10 < 10)%N)
    by (repeat apply N.Div0.div_lt_upper_bound; lia).
  rewrite (N.mod_small (a / 10 / 10 / 10) 10) by assumption.
  pose proof (N.div_mod a 10) as E0.
  pose proof (N.div_mod (a / 10) 10) as E1.
  pose proof (N.div_mod (a / 10 / 10) 10) as E2.
  lia.
Qed.

Lemma pad2_inj (a b : N) :
  (a < 100)%N -> (b < 100)%N -> pad2 a = pad2 b -> a = b.
Proof.
  intros Ha Hb H. unfold pad2 in H. injection H as H1 H0.
  apply dec_digit_inj in H1, H0.
  rewrite (digits2 a Ha), (digits2 b Hb), H1, H0. reflexivity.
Qed.

Lemma pad4_inj (a b : N) :
  (a < 10000)%N -> (b < 10000)%N -> pad4 a = pad4 b -> a = b.
Proof.
  intros Ha Hb H. unfold pad4 in H. injection H as H3 H2 H1 H0.
  apply dec_digit_inj in H3, H2, H1, H0.
  rewrite (digits4 a Ha), (digits4 b Hb), H3, H2, H1, H0. reflexivity.
Qed.

Lemma pad2_length (n : N) : String.length (pad2 n) = 2.
Proof. reflexivity. Qed.

Lemma pad4_length (n : N) : String.length (pad4 n) = 4.
Proof. reflexivity. Qed.

Lemma strftime_inj (a b : datetime) :
  valid_datetime a -> valid_datetime b ->
  strftime a = strftime b -> same_minute a b.
Proof.
  intros (Hy & Hm & Hd & HH & HM & _) (Hy' & Hm' & Hd' & HH' & HM' & _) H.
  unfold strftime in H. cbn in H.
  injection H as y3 y2 y1 y0 m1 m0 d1 d0 h1 h0 M1 M0.
  unfold same_minute. repeat split.
  - apply pad4_inj; [lia | lia | unfold pad4; congruence].
  - apply pad2_inj; [lia | lia | unfold pad2; congruence].
  - apply pad2_inj; [lia | lia | unfold pad2; congruence].
  - apply pad2_inj; [lia | lia | unfold pad2; congruence].
  - apply pad2_inj; [lia | lia | unfold pad2; congruence].
Qed.

Lemma same_minute_filename (a b : datetime) :
  same_minute a b -> log_filename a = log_filename b.
Proof.
  intros (Hy & Hm & Hd & HH & HM). unfold log_filename, strftime.
  rewrite Hy, Hm, Hd, HH, HM. reflexivity.
Qed.

(** C8: the name of the log is the fixed prefix, then the start time to the
    minute (year, month, day, hour, minute, and no seconds), then the
    extension: two runs get the same name exactly when they start within the
    same minute. *)
Theorem log_filename_minute (a b : datetime) :
  log_filename a
    = ("comparison_log_" ++ pad4 (year a) ++ pad2 (month a) ++ pad2 (day a)
         ++ "_" ++ pad2 (hour a) ++ pad2 (minute a) ++ ".txt")%string
  /\ String.length (log_filename a) = 32
  /\ (same_minute a b -> log_filename a = log_filename b)
  /\ (valid_datetime a -> valid_datetime b ->
      log_filename a = log_filename b -> same_minute a b).
Proof.
  split; [reflexivity|]. split; [reflexivity|]. split.
  - apply same_minute_filename.
  - intros Ha Hb H. apply strftime_inj; [assumption | assumption |].
    unfold log_filename in H. cbn in H.
    injection H as y3 y2 y1 y0 m1 m0 d1 d0 h1 h0 M1 M0.
    unfold strftime, pad4, pad2. congruence.
Qed.

Example log_filename_sample :
  log_filename sample_time = "comparison_log_20231005_1430.txt"
  /\ log_filename {| year := 2023; month := 10; day := 5; hour := 14;
                     minute := 30; second := 59; microsecond := 999 |}
     = log_filename sample_time
  /\ log_filename {| year := 2023; month := 10; day := 5; hour := 14;
                     minute := 31; second := 12; microsecond := 0 |}
     <> log_filename sample_time.
Proof. repeat split. discriminate. Qed.

(** ** The client: effects of a run *)

Section ClientFacts.

Variable w : world.

Lemma add_calls_nil (st : state) : add_calls [] st = st.
Proof. destruct st. unfold add_calls. cbn. rewrite app_nil_r. reflexivity. Qed.

Lemma add_calls_app (cs1 cs2 : list ext_call) (st : state) :
  add_calls cs2 (add_calls cs1 st) = add_calls (cs1 ++ cs2) st.
Proof. unfold add_calls. cbn. rewrite map_app, app_assoc. reflexivity. Qed.

(** Writing does not read the trace. *)
Lemma write_out_add_calls (h : handle) (fo : file_object) cs (st : state) :
  write_out w h fo (add_calls cs st)
  = (fst (write_out w h fo st), add_calls cs (snd (write_out w h fo st))).
Proof.
  unfold write_out. cbn. destruct (fo_buffer fo); [reflexivity|].
  destruct (disk_error w _ _ _); reflexivity.
Qed.

Lemma file_write_add_calls (h : handle) (m : string) cs (st : state) :
  file_write w h m (add_calls cs st)
  = (fst (file_write w h m st), add_calls cs (snd (file_write w h m st))).
Proof.
  unfold file_write. cbn.
  destruct (objects st !! h) as [fo|]; [|reflexivity].
  destruct (fo_closed fo); [reflexivity|].
  destruct (negb (log_accepts w m)); [reflexivity|].
  destruct (buffer_full w (fo_buffer fo) m); [|reflexivity].
  apply write_out_add_calls.
Qed.

Lemma sink_write_add_calls (s : sink) (m : string) cs (st : state) :
  sink_write w s m (add_calls cs st)
  = (fst (sink_write w s m st), add_calls cs (snd (sink_write w s m st))).
Proof.
  revert st. induction s as [|t IH h]; intros st; cbn.
  - destruct (term_accepts w m); reflexivity.
  - unfold bind. rewrite IH.
    destruct (sink_write w t m st) as [[e|[]] st1]; cbn; [reflexivity|].
    apply file_write_add_calls.
Qed.

Lemma sys_write_add_calls (m : string) cs (st : state) :
  snd (sys_write w m (add_calls cs st)) = add_calls cs (snd (sys_write w m st)).
Proof. unfold sys_write. cbn. rewrite sink_write_add_calls. reflexivity. Qed.

Lemma attempts_cons (m : string) (msgs : list string) (st : state) :
  attempts w (m :: msgs) st = attempts w msgs (snd (sys_write w m st)).
Proof. reflexivity. Qed.

Lemma attempts_add_calls (msgs : list string) cs (st : state) :
  attempts w msgs (add_calls cs st) = add_calls cs (attempts w msgs st).
Proof.
  revert st. induction msgs as [|m msgs IH]; intros st; [reflexivity|].
  rewrite !attempts_cons, sys_write_add_calls. apply IH.
Qed.

Lemma attempts_app (l1 l2 : list string) (st : state) :
  attempts w (l1 ++ l2) st = attempts w l2 (attempts w l1 st).
Proof. unfold attempts. apply fold_left_app. Qed.

(** *** What writing leaves as it is *)

Lemma shape_put (l : list file_object) (h : handle) (fo fo' : file_object) :
  l !! h = Some fo ->
  fo_name fo' = fo_name fo -> fo_closed fo' = fo_closed fo ->
  map (fun x => (fo_name x, fo_closed x)) (<[h := fo']> l)
  = map (fun x => (fo_name x, fo_closed x)) l.
Proof.
  intros Hl Hn Hc.
  change (map ?g ?k) with (g <$> k). rewrite list_fmap_insert.
  apply list_insert_id. rewrite list_lookup_fmap, Hl. cbn.
  rewrite Hn, Hc. reflexivity.
Qed.

Lemma shape_lookup (st st' : state) (h : handle) (fo : file_object) :
  shape st' = shape st -> objects st !! h = Some fo ->
  exists fo', objects st' !! h = Some fo'
              /\ fo_name fo' = fo_name fo /\ fo_closed fo' = fo_closed fo.
Proof.
  unfold shape. intros Hs Ho.
  assert (E : (map (fun x => (fo_name x, fo_closed x)) (objects st')) !! h
              = Some (fo_name fo, fo_closed fo)).
  { rewrite Hs. change (map ?g ?k) with (g <$> k).
    rewrite list_lookup_fmap, Ho. reflexivity. }
  change (map ?g ?k) with (g <$> k) in E. rewrite list_lookup_fmap in E.
  destruct (objects st' !! h) as [fo'|]; [|discriminate].
  cbn in E. injection E as E1 E2. eauto.
Qed.

Lemma shape_length (st st' : state) :
  shape st' = shape st -> length (objects st') = length (objects st).
Proof.
  unfold shape. intros Hs.
  rewrite <- (length_map (fun x => (fo_name x, fo_closed x)) (objects st')).
  rewrite Hs. apply length_map.
Qed.

Lemma write_out_frame (h : handle) (fo fo0 : file_object) (st : state) :
  objects st !! h = Some fo0 ->
  fo_name fo = fo_name fo0 -> fo_closed fo = fo_closed fo0 ->
  let st' := snd (write_out w h fo st) in
  stdout st' = stdout st /\ console st' = console st /\ trace st' = trace st
  /\ shape st' = shape st.
Proof.
  intros Ho Hn Hc. unfold write_out. destruct (fo_buffer fo); [cbn; auto|].
  destruct (disk_error w _ _ _); cbn;
    (repeat split; unfold shape; cbn; apply (shape_put _ _ fo0); auto).
Qed.

Lemma file_write_frame (h : handle) (m : string) (st : state) :
  let st' := snd (file_write w h m st) in
  stdout st' = stdout st /\ console st' = console st /\ trace st' = trace st
  /\ shape st' = shape st.
Proof.
  unfold file_write. destruct (objects st !! h) as [fo|] eqn:Ho; [|cbn; auto].
  destruct (fo_closed fo) eqn:Hc; [cbn; auto|].
  destruct (negb (log_accepts w m)); [cbn; auto|].
  destruct (buffer_full w (fo_buffer fo) m).
  - apply (write_out_frame h _ fo st Ho); [reflexivity|].
    cbn. symmetry. exact Hc.
  - cbn. repeat split. unfold shape. cbn.
    apply (shape_put _ _ fo); cbn; congruence.
Qed.

Lemma sink_write_frame (s : sink) (m : string) (st : state) :
  let st' := snd (sink_write w s m st) in
  stdout st' = stdout st /\ trace st' = trace st /\ shape st' = shape st.
Proof.
  revert st. induction s as [|t IH h]; intros st; cbn.
  - destruct (term_accepts w m); cbn; auto.
  - unfold bind. specialize (IH st).
    destruct (sink_write w t m st) as [[e|[]] st1]; cbn in *; [exact IH|].
    destruct IH as (H1 & H2 & H3).
    destruct (file_write_frame h m st1) as (F1 & _ & F3 & F4).
    rewrite F1, F3, F4. auto.
Qed.

Lemma attempts_frame (msgs : list string) (st : state) :
  let st' := attempts w msgs st in
  stdout st' = stdout st /\ trace st' = trace st /\ shape st' = shape st.
Proof.
  revert st. induction msgs as [|m msgs IH]; intros st; [cbn; auto|].
  rewrite attempts_cons.
  destruct (IH (snd (sys_write w m st))) as (H1 & H2 & H3).
  destruct (sink_write_frame (stdout st) m st) as (F1 & F2 & F3).
  cbn zeta. rewrite H1, H2, H3. unfold sys_write. auto.
Qed.

(** *** The calls of a run *)

Lemma write_each_attempts (l : list string) (st : state) :
  exists msgs, snd (write_each w l st) = attempts w msgs st.
Proof.
  revert st. induction l as [|x l IH]; intros st.
  - exists []. reflexivity.
  - cbn [write_each]. unfold bind.
    destruct (sys_write w x st) as [[e|[]] st1] eqn:E.
    + exists [x]. rewrite attempts_cons, E. reflexivity.
    + destruct (IH st1) as (msgs & Hm). exists (x :: msgs).
      rewrite attempts_cons, E. exact Hm.
Qed.

Lemma makes_call {A} (c : ext_call) (r : ext A) (st : state) :
  makes w (call w c r) st [c].
Proof.
  unfold makes, call, bind, emit. cbn.
  destruct (write_each_attempts (ext_out r) (log_event (EvCall c) st))
    as (msgs & Hm).
  exists msgs.
  change (log_event (EvCall c) st) with (add_calls [c] st) in *.
  rewrite attempts_add_calls in Hm.
  destruct (write_each w (ext_out r) (add_calls [c] st)) as [[e|[]] st1];
    cbn in *; exact Hm.
Qed.

Lemma makes_print (m : string) (st : state) : makes w (print w m) st [].
Proof.
  unfold makes, print, bind.
  destruct (sys_write w m st) as [[e|[]] st1] eqn:E.
  - exists [m]. rewrite add_calls_nil, attempts_cons, E. reflexivity.
  - exists [m; nl]. rewrite add_calls_nil, !attempts_cons, E. reflexivity.
Qed.

(** A call returns what the collaborator returns. *)
Lemma call_returns {A} (c : ext_call) (r : ext A) (a : A) (st st1 : state) :
  call w c r st = (inr a, st1) -> ext_res r = inr a.
Proof.
  unfold call, bind, emit, lift. cbn.
  destruct (write_each w (ext_out r) _) as [[e|[]] st2]; [discriminate|].
  intros H. injection H as H _. exact H.
Qed.

(** A call of a collaborator that raises ends in an exception. *)
Lemma call_raises {A} (c : ext_call) (r : ext A) (e : exn) (st : state) :
  ext_res r = inl e -> exists e', fst (call w c r st) = inl e'.
Proof.
  intros Hr. unfold call, bind, emit, lift. cbn.
  destruct (write_each w (ext_out r) _) as [[e1|[]] st1]; cbn; eauto.
Qed.

Lemma discovery_returns (a : list tool) :
  ext_res (discovery w) = inr a -> a = remote_tools /\ discovered w = remote_tools.
Proof.
  unfold discovery, discovered. cbn.
  destruct (ext_res (w_tool_list w)) as [e|u]; [discriminate|].
  intros H. injection H as <-. auto.
Qed.

Section Follows.

Variable P : ext_call -> Prop.

Lemma follows_bind {A B} (m : M A) (k : A -> M B) (st : state) cs1 rest :
  makes w m st cs1 -> Forall P cs1 ->
  (forall a st1, m st = (inr a, st1) -> follows w P (k a) st1 rest) ->
  follows w P (bind m k) st (cs1 ++ rest).
Proof.
  intros (l1 & E1) F1 Hk. unfold follows, makes, bind.
  destruct (m st) as [[e|a] st1] eqn:Em; cbn in E1.
  - exists cs1. split; [eauto|]. split; [|exact F1].
    apply prefix_app_r. reflexivity.
  - destruct (Hk a st1 eq_refl) as (cs2 & (l2 & E2) & Hp & F2).
    exists (cs1 ++ cs2). split; [|split].
    + exists (l1 ++ l2).
      rewrite E2, E1, attempts_add_calls, add_calls_app, attempts_app.
      reflexivity.
    + apply prefix_app. exact Hp.
    + apply Forall_app; auto.
Qed.

Lemma follows_call {A B} (c : ext_call) (r : ext A) (k : A -> M B)
    (st : state) rest :
  P c ->
  (forall a st1, ext_res r = inr a -> follows w P (k a) st1 rest) ->
  follows w P (bind (call w c r) k) st (c :: rest).
Proof.
  intros Hc Hk.
  apply (follows_bind _ _ _ [c] rest); [apply makes_call|auto|].
  intros a st1 E. apply Hk. exact (call_returns c r a st st1 E).
Qed.

Lemma follows_print {B} (m : string) (k : unit -> M B) (st : state) rest :
  (forall st1, follows w P (k tt) st1 rest) ->
  follows w P (bind (print w m) k) st rest.
Proof.
  intros Hk. apply (follows_bind _ _ _ [] rest); [apply makes_print|auto|].
  intros [] st1 _. apply Hk.
Qed.

Lemma follows_last_print (m : string) (st : state) rest :
  follows w P (print w m) st rest.
Proof.
  exists []. split; [apply makes_print|]. split; [apply prefix_nil|auto].
Qed.

End Follows.

Lemma report_follows (tools : list tool) (name : string) (st : state) :
  tools = all_tools remote_tools ->
  follows w tools_ok (report w tools name) st [CAgentRun tools request].
Proof.
  intros ->. unfold report.
  apply follows_print. intros st1.
  apply follows_call; [reflexivity|]. intros response st2 _.
  apply follows_print. intros st3.
  apply follows_print. intros st4.
  apply follows_last_print.
Qed.

Lemma main_body_follows (name : string) (st : state) :
  follows w tools_ok (main_body w name) st
    (planned_calls (all_tools (discovered w))).
Proof.
  unfold main_body, planned_calls.
  apply follows_call; [exact I|]. intros _ st1 _.
  apply follows_call; [exact I|]. intros _ st2 _.
  apply follows_call; [exact I|]. intros mcp_tools st3 Hd.
  destruct (discovery_returns _ Hd) as (-> & ->).
  apply follows_call; [exact I|]. intros _ st4 _.
  apply follows_call; [exact I|]. intros _ st5 _.
  cbv zeta.
  apply follows_call; [reflexivity|]. intros _ st6 _.
  apply report_follows. reflexivity.
Qed.

(** *** The guarded region *)

Lemma sink_neq (t : sink) (h : handle) : LoggerObj t h <> t.
Proof.
  revert h. induction t as [|t IH h0]; intros h; [discriminate|].
  intros E. injection E as E _. exact (IH _ E).
Qed.

Lemma file_close_frame (h : handle) (st : state) :
  let st' := snd (file_close w h st) in
  stdout st' = stdout st /\ console st' = console st
  /\ trace st' = trace st ++ [EvClose h]
  /\ length (objects st') = length (objects st)
  /\ is_open_in st' h = false.
Proof.
  unfold file_close, is_open_in.
  destruct (objects st !! h) as [fo|] eqn:Ho.
  - destruct (fo_closed fo) eqn:Hc.
    + cbn. rewrite Ho, Hc. auto.
    + pose proof (write_out_frame h fo fo st Ho eq_refl eq_refl)
        as (F1 & F2 & F3 & F4).
      destruct (write_out w h fo st) as [r st1]. cbn in *.
      rewrite F1, F2, F3, length_insert, (shape_length _ _ F4).
      repeat split.
      rewrite list_lookup_insert_eq; [reflexivity|].
      rewrite (shape_length _ _ F4). apply lookup_lt_Some in Ho. exact Ho.
  - cbn. rewrite Ho. auto.
Qed.

Lemma restore_unfold (t : sink) (h : handle) (st : state) :
  stdout st = LoggerObj t h ->
  restore w st
  = match file_close w h st with
    | (inr _, st1) => (inr tt, log_event (EvStdout t) (with_stdout t st1))
    | (inl e, st1) => (inl e, st1)
    end.
Proof.
  intros Hs. unfold restore. rewrite Hs. unfold bind, set_stdout.
  destruct (file_close w h st) as [[e|[]] st1]; reflexivity.
Qed.

Lemma main_unfold (st : state) :
  can_open w (log_filename (now w)) = true ->
  main w st
  = try_finally (main_body w (log_filename (now w))) (restore w)
      (installed (log_filename (now w)) st).
Proof.
  intros Hopen. unfold main, Logger, open_w, bind. cbn. rewrite Hopen. cbn.
  unfold ret, set_stdout. cbn.
  unfold installed, log_event, with_stdout, with_objects, with_disk. cbn.
  rewrite <- app_assoc. reflexivity.
Qed.

Lemma main_open_fails (st : state) :
  can_open w (log_filename (now w)) = false ->
  main w st = (inl (OSError (log_filename (now w))), st).
Proof.
  intros Hopen. unfold main, Logger, open_w, bind. cbn. rewrite Hopen.
  reflexivity.
Qed.

(** What the body leaves of the sink, the trace and the file objects. *)
Lemma body_frame (name : string) (st : state) cs :
  makes w (main_body w name) st cs ->
  let b := snd (main_body w name st) in
  stdout b = stdout st /\ trace b = trace st ++ map EvCall cs
  /\ shape b = shape st.
Proof.
  intros (msgs & E). cbn zeta. rewrite E.
  destruct (attempts_frame msgs st) as (A1 & A2 & A3).
  unfold shape in *. cbn. rewrite A1, A2, A3. auto.
Qed.

(** The end of a run: the log is closed, and the sink is put back when the
    closing returns. *)
Lemma main_end (st : state) :
  can_open w (log_filename (now w)) = true ->
  let f := log_filename (now w) in
  let h := length (objects st) in
  let b := main_body w f (installed f st) in
  stdout (snd b) = LoggerObj (stdout st) h
  /\ main w st
     = match file_close w h (snd b) with
       | (inr _, s) =>
           (fst b, log_event (EvStdout (stdout st)) (with_stdout (stdout st) s))
       | (inl e, s) => (inl e, s)
       end.
Proof.
  intros Hopen f h b.
  destruct (main_body_follows f (installed f st)) as (cs & Hm & _).
  destruct (body_frame f (installed f st) cs Hm) as (B1 & _).
  fold b in B1. cbn in B1. fold h in B1. split; [exact B1|].
  rewrite (main_unfold st Hopen). fold f. unfold try_finally. fold b.
  destruct b as [r sb]. cbn [fst snd] in *.
  rewrite (restore_unfold _ _ _ B1).
  destruct (file_close w h sb) as [[e|[]] s]; reflexivity.
Qed.

Lemma write_out_reliable (h : handle) (fo : file_object) (st : state) :
  reliable_log w -> fst (write_out w h fo st) = inr tt.
Proof.
  intros (_ & Hr). unfold write_out. destruct (fo_buffer fo); [reflexivity|].
  rewrite Hr. reflexivity.
Qed.

Lemma file_close_reliable (h : handle) (st : state) :
  reliable_log w -> fst (file_close w h st) = inr tt.
Proof.
  intros Hr. unfold file_close.
  destruct (objects st !! h) as [fo|]; [|reflexivity].
  destruct (fo_closed fo); [reflexivity|].
  pose proof (write_out_reliable h fo st Hr) as E.
  destruct (write_out w h fo st) as [r s]. exact E.
Qed.

(** The trace of a run, for any sink, from the calls of the body. *)
Lemma main_trace_of (st : state) cs :
  can_open w (log_filename (now w)) = true ->
  let f := log_filename (now w) in
  let h := length (objects st) in
  let b := main_body w f (installed f st) in
  let st' := snd (main w st) in
  makes w (main_body w f) (installed f st) cs ->
  is_open_in st' h = false
  /\ ((fst (main w st) = fst b
       /\ stdout st' = stdout st
       /\ trace st'
          = trace st ++ [EvOpen f h; EvStdout (LoggerObj (stdout st) h)]
            ++ map EvCall cs ++ [EvClose h; EvStdout (stdout st)])
      \/ (exists e,
            fst (file_close w h (snd b)) = inl e
            /\ fst (main w st) = inl e
            /\ stdout st' = LoggerObj (stdout st) h
            /\ trace st'
               = trace st ++ [EvOpen f h; EvStdout (LoggerObj (stdout st) h)]
                 ++ map EvCall cs ++ [EvClose h]))
  /\ (reliable_log w -> stdout st' = stdout st)
  /\ (forall e, fst (file_close w h (snd b)) = inl e ->
        stdout st' = LoggerObj (stdout st) h).
Proof.
  intros Hopen f h b st' Hm.
  destruct (body_frame f (installed f st) cs Hm) as (B1 & B2 & _).
  fold b in B1, B2. cbn in B1, B2.
  destruct (main_end st Hopen) as (_ & E). fold f h b in E.
  destruct (file_close_frame h (snd b)) as (C1 & _ & C3 & _ & C5).
  pose proof (file_close_reliable h (snd b)) as Hrel.
  unfold st'. rewrite E.
  destruct (file_close w h (snd b)) as [[e|[]] s]; cbn in *.
  - split; [exact C5|]. split; [|split].
    + right. exists e. repeat split.
      * rewrite C1, B1. reflexivity.
      * rewrite C3, B2, <- !app_assoc. reflexivity.
    + intros Hr. specialize (Hrel Hr). discriminate Hrel.
    + intros _ _. rewrite C1, B1. reflexivity.
  - split; [exact C5|]. split; [|split].
    + left. repeat split. rewrite C3, B2, <- !app_assoc. reflexivity.
    + reflexivity.
    + intros e' C. discriminate C.
Qed.

(** When the discovery raises, the body ends before the agent is built. *)
Lemma main_body_no_agent (name : string) (st : state) (e : exn) :
  ext_res (w_tool_list w) = inl e ->
  follows w before_agent (main_body w name) st
    (planned_calls (all_tools (discovered w)))
  /\ exists e', fst (main_body w name st) = inl e'.
Proof.
  intros He. split.
  - unfold main_body, planned_calls.
    apply follows_call; [exact I|]. intros _ st1 _.
    apply follows_call; [exact I|]. intros _ st2 _.
    apply follows_call; [exact I|]. intros a st3 Hd.
    unfold discovery in Hd. cbn in Hd. rewrite He in Hd. discriminate Hd.
  - unfold main_body, bind.
    destruct (call w _ (w_client w) _) as [[e1|a1] st1]; [cbn; eauto|].
    destruct (call w _ (w_spec w) _) as [[e2|a2] st2]; [cbn; eauto|].
    assert (Hd : ext_res (discovery w) = inl e).
    { unfold discovery. cbn. rewrite He. reflexivity. }
    destruct (call_raises CToolList (discovery w) e st2 Hd) as (e3 & H3).
    destruct (call w CToolList (discovery w) st2) as [[e4|a4] st3];
      [cbn; eauto|discriminate H3].
Qed.

(** *** The capture *)

Lemma state_eq (a b : state) :
  stdout a = stdout b -> console a = console b -> disk a = disk b ->
  objects a = objects b -> trace a = trace b -> a = b.
Proof. destruct a, b. cbn. intros. subst. reflexivity. Qed.

Lemma took_took (h : handle) (f : string) T1 T2 d1 d2 b1 b2 (st : state) :
  took h f T2 d2 b2 (took h f T1 d1 b1 st) = took h f (T1 ++ T2) d2 b2 st.
Proof.
  apply state_eq; cbn; try reflexivity.
  - symmetry. apply app_assoc.
  - apply insert_insert_eq.
  - apply list_insert_insert_eq.
Qed.

Lemma took_id (h : handle) (f : string) d b (st : state) :
  objects st !! h = Some {| fo_name := f; fo_closed := false; fo_buffer := b |} ->
  disk st !! f = Some d ->
  took h f [] d b st = st.
Proof.
  intros Ho Hd. apply state_eq; cbn; try reflexivity.
  - apply app_nil_r.
  - apply insert_id. exact Hd.
  - apply list_insert_id. exact Ho.
Qed.

Lemma capture_at_took (t : sink) (h : handle) (f : string) d b T d' b'
    (st : state) :
  capture_at t h f d b st -> capture_at t h f d' b' (took h f T d' b' st).
Proof.
  intros (H1 & H2 & H3 & H4). unfold capture_at. cbn.
  split; [exact H1|]. split.
  { apply list_lookup_insert_eq. apply lookup_lt_Some in H2. exact H2. }
  split; [apply lookup_insert_eq|].
  destruct H4 as [->|(h0 & fo & -> & Ho & Hc)]; [left; reflexivity|].
  right. exists h0, fo. split; [reflexivity|]. split; [|exact Hc].
  cbn. rewrite list_lookup_insert_ne; [exact Ho|].
  intros ->. rewrite H2 in Ho. injection Ho as <-. discriminate Hc.
Qed.

Lemma capture_over_at (t : sink) (h : handle) (f : string) (st : state) :
  capture_over t st h f <-> exists d b, capture_at t h f d b st.
Proof.
  unfold capture_over, capture_at. split.
  - intros (H1 & (b & H2) & (d & H3) & H4). exists d, b. auto.
  - intros (d & b & H1 & H2 & H3 & H4). eauto 10.
Qed.

Lemma masked_sublist {A} (mask : list bool) (l : list A) :
  masked mask l `sublist_of` l.
Proof.
  revert l. induction mask as [|[] mask IH]; intros [|x l]; cbn;
    try apply sublist_nil_l.
  - apply sublist_skip, IH.
  - apply sublist_cons, IH.
Qed.

Lemma written_took (h : handle) (f : string) c d' b' (st : state) :
  written h {| fo_name := f; fo_closed := false; fo_buffer := c |} d' b' st
  = took h f [] d' b' st.
Proof.
  apply state_eq; cbn; try reflexivity. symmetry. apply app_nil_r.
Qed.

(** The writing out of the buffer [b] of the file object [h], which holds
    [b0]. *)
Lemma write_out_took (h : handle) (f : string) d b b0 (st : state) :
  objects st !! h = Some {| fo_name := f; fo_closed := false; fo_buffer := b0 |} ->
  disk st !! f = Some d ->
  (b = [] -> b0 = []) ->
  exists r d' b',
    write_out w h {| fo_name := f; fo_closed := false; fo_buffer := b |} st
    = (r, took h f [] d' b' st)
    /\ ((r = inr tt /\ d' = d ++ b /\ b' = [])
        \/ (exists e n, r = inl e /\ d' = d ++ take n b
                        /\ b' `sublist_of` drop n b))
    /\ (reliable_log w -> r = inr tt).
Proof.
  intros Ho Hd Hb. unfold write_out. cbn [fo_buffer fo_name fo_closed].
  destruct b as [|x b].
  - rewrite (Hb eq_refl) in Ho. exists (inr tt), d, [].
    rewrite (took_id _ _ _ _ _ Ho Hd), app_nil_r.
    split; [reflexivity|]. split; [left; auto|auto].
  - rewrite Hd. cbn [from_option id].
    destruct (disk_error w f d (x :: b)) as [ft|] eqn:E.
    + exists (inl (fault_exn ft)), (d ++ take (fault_written ft) (x :: b)),
        (masked (fault_kept ft) (drop (fault_written ft) (x :: b))).
      rewrite written_took. split; [reflexivity|]. split.
      * right. exists (fault_exn ft), (fault_written ft).
        split; [reflexivity|]. split; [reflexivity|apply masked_sublist].
      * intros (_ & Hr). rewrite Hr in E. discriminate E.
    + exists (inr tt), (d ++ x :: b), []. rewrite written_took.
      split; [reflexivity|]. split; [left; auto|auto].
Qed.

Lemma write_out_loses (d b d' b' : list string) (n : nat) :
  d' = d ++ take n b -> b' `sublist_of` drop n b ->
  d' ++ b' `sublist_of` d ++ b.
Proof.
  intros -> Hs. rewrite <- (take_drop n b) at 2. rewrite <- app_assoc.
  apply sublist_app; [reflexivity|].
  apply sublist_app; [reflexivity|exact Hs].
Qed.

Lemma file_write_took (h : handle) (f : string) d b (m : string) (st : state) :
  objects st !! h = Some {| fo_name := f; fo_closed := false; fo_buffer := b |} ->
  disk st !! f = Some d ->
  exists r d' b',
    file_write w h m st = (r, took h f [] d' b' st)
    /\ ((r = inr tt /\ d' ++ b' = (d ++ b) ++ [m])
        \/ (exists e, r = inl e /\ d' ++ b' `sublist_of` (d ++ b) ++ [m]))
    /\ (reliable_log w -> r = inr tt)
    /\ (log_accepts w m = false -> d' = d /\ b' = b).
Proof.
  intros Ho Hd. unfold file_write. rewrite Ho. cbn [fo_buffer fo_name fo_closed].
  destruct (log_accepts w m) eqn:Ha; cbn [negb].
  2:{ exists (inl (UnicodeEncodeError m)), d, b.
      rewrite (took_id _ _ _ _ _ Ho Hd).
      split; [reflexivity|]. split.
      { right. eexists. split; [reflexivity|].
        apply sublist_inserts_r. reflexivity. }
      split; [|auto].
      intros (Hr & _). rewrite Hr in Ha. discriminate Ha. }
  destruct (buffer_full w b m).
  - destruct (write_out_took h f d (b ++ [m]) b st Ho Hd)
      as (r & d1 & b1 & E & Hc & Hr).
    { intros C. destruct b; discriminate C. }
    exists r, d1, b1. split; [exact E|]. split; [|split; [exact Hr|]].
    + destruct Hc as [(-> & -> & ->)|(e & n & -> & Hd1 & Hb1)].
      * left. split; [reflexivity|]. rewrite app_nil_r. apply app_assoc.
      * right. exists e. split; [reflexivity|].
        rewrite <- app_assoc. exact (write_out_loses _ _ _ _ n Hd1 Hb1).
    + intros C. discriminate C.
  - exists (inr tt), d, (b ++ [m]). split.
    + f_equal. apply state_eq; cbn; try reflexivity.
      * symmetry. apply app_nil_r.
      * symmetry. apply insert_id. exact Hd.
    + split; [left; split; [reflexivity|apply app_assoc]|].
      split; [auto|]. intros C. discriminate C.
Qed.

(** One write under an active capture.  The terminal takes the text when
    its encoding holds it; the log is written only when the terminal has
    taken the text, and the write returns only when both have. *)
Lemma sys_write_took (t : sink) (h : handle) (f : string) d b (m : string)
    (st : state) :
  capture_at t h f d b st ->
  exists r d' b',
    sys_write w m st
    = (r, took h f (if term_accepts w m then [m] else []) d' b' st)
    /\ ((r = inr tt /\ term_accepts w m = true /\ d' ++ b' = (d ++ b) ++ [m])
        \/ (exists e, r = inl e
                      /\ d' ++ b' `sublist_of`
                           (d ++ b) ++ (if term_accepts w m then [m] else [])))
    /\ (t = Terminal -> reliable_log w -> term_accepts w m = true ->
        r = inr tt)
    /\ (term_accepts w m = false \/ log_accepts w m = false ->
        d' = d /\ b' = b).
Proof.
  intros (H1 & H2 & H3 & H4). unfold sys_write. rewrite H1.
  cbn [sink_write]. unfold bind.
  assert (Hacc : term_accepts w m = true ->
            exists r d' b',
              file_write w h m (with_console (console st ++ [m]) st)
              = (r, took h f [m] d' b' st)
              /\ ((r = inr tt /\ d' ++ b' = (d ++ b) ++ [m])
                  \/ (exists e, r = inl e
                                /\ d' ++ b' `sublist_of` (d ++ b) ++ [m]))
              /\ (reliable_log w -> r = inr tt)
              /\ (log_accepts w m = false -> d' = d /\ b' = b)).
  { intros _.
    destruct (file_write_took h f d b m (with_console (console st ++ [m]) st)
                H2 H3) as (r & d1 & b1 & E & Hc & Hr).
    exists r, d1, b1. split; [|auto]. rewrite E. f_equal.
    apply state_eq; cbn; try reflexivity. apply app_nil_r. }
  assert (Hrej : term_accepts w m = false ->
            (inl (UnicodeEncodeError m) : exn + unit, st)
            = (inl (UnicodeEncodeError m), took h f [] d b st)).
  { intros _. rewrite (took_id _ _ _ _ _ H2 H3). reflexivity. }
  assert (Hsame : forall l : list string, d ++ b `sublist_of` (d ++ b) ++ l).
  { intros l. apply sublist_inserts_r. reflexivity. }
  destruct H4 as [->|(h0 & fo & -> & Ho & Hc)].
  - cbn [sink_write]. destruct (term_accepts w m) eqn:Ha.
    + destruct (Hacc eq_refl) as (r & d1 & b1 & E & Hd & Hr & Hl).
      exists r, d1, b1. split; [exact E|]. split; [|split; [auto|]].
      * destruct Hd as [(-> & Hd)|Hd]; [left; auto|right; exact Hd].
      * intros [C|C]; [discriminate C|exact (Hl C)].
    + exists (inl (UnicodeEncodeError m)), d, b.
      split; [apply Hrej; reflexivity|]. split; [right; eauto|].
      split; [|auto]. intros _ _ C. discriminate C.
  - cbn [sink_write]. unfold bind. destruct (term_accepts w m) eqn:Ha.
    + unfold file_write at 1. cbn. rewrite Ho, Hc.
      exists (inl closed_file), d, b. split.
      * f_equal. apply state_eq; cbn; try reflexivity.
        -- symmetry. apply insert_id. exact H3.
        -- symmetry. apply list_insert_id. exact H2.
      * split; [right; eauto|]. split; [|auto]. intros C. discriminate C.
    + exists (inl (UnicodeEncodeError m)), d, b.
      split; [apply Hrej; reflexivity|]. split; [right; eauto|].
      split; [|auto]. intros C. discriminate C.
Qed.

(** A sequence of writes under an active capture: the terminal takes the
    texts its encoding holds; what the log holds is part of what it held and
    of those texts, in their order, and all of it when the sink below is the
    terminal and the log is reliable, or when every write returns. *)
Lemma attempts_took (t : sink) (h : handle) (f : string)
    (msgs : list string) :
  forall d b (st : state),
    capture_at t h f d b st ->
    exists d' b',
      attempts w msgs st
      = took h f (List.filter (term_accepts w) msgs) d' b' st
      /\ d' ++ b' `sublist_of` (d ++ b) ++ List.filter (term_accepts w) msgs
      /\ (t = Terminal -> reliable_log w ->
          d' ++ b' = (d ++ b) ++ List.filter (term_accepts w) msgs)
      /\ (all_return w msgs st ->
          List.filter (term_accepts w) msgs = msgs
          /\ d' ++ b' = (d ++ b) ++ msgs).
Proof.
  induction msgs as [|m msgs IH]; intros d b st Hc.
  - exists d, b. cbn. destruct Hc as (_ & H2 & H3 & _).
    rewrite (took_id _ _ _ _ _ H2 H3), !app_nil_r. auto.
  - rewrite attempts_cons. cbn [all_return].
    destruct (sys_write_took t h f d b m st Hc)
      as (r & d1 & b1 & E & Hd & Hr & Hkeep).
    rewrite E. cbn [fst snd].
    pose proof (capture_at_took t h f d b
                  (if term_accepts w m then [m] else []) d1 b1 st Hc) as Hc1.
    destruct (IH d1 b1 _ Hc1) as (d2 & b2 & E2 & Hs & Hl & Hall).
    rewrite E2, took_took.
    assert (Hf : List.filter (term_accepts w) (m :: msgs)
                 = (if term_accepts w m then [m] else [])
                   ++ List.filter (term_accepts w) msgs).
    { cbn. destruct (term_accepts w m); reflexivity. }
    rewrite Hf. exists d2, b2. split; [reflexivity|].
    rewrite (app_assoc (d ++ b)).
    destruct Hd as [(-> & Ha & Hd)|(e & -> & Hd)].
    + rewrite Ha in *. rewrite <- Hd.
      split; [exact Hs|]. split; [exact Hl|].
      intros (_ & Hrest). destruct (Hall Hrest) as (F & Hd2).
      rewrite F. split; [reflexivity|].
      rewrite Hd2, Hd, <- (app_assoc (d ++ b)). reflexivity.
    + split.
      { transitivity ((d1 ++ b1) ++ List.filter (term_accepts w) msgs);
          [exact Hs|].
        apply sublist_app; [exact Hd|reflexivity]. }
      split; [|intros (C & _); discriminate C].
      intros Ht Hrel.
      destruct (term_accepts w m) eqn:Ha.
      * specialize (Hr Ht Hrel eq_refl). discriminate Hr.
      * destruct (Hkeep (or_introl eq_refl)) as (-> & ->).
        rewrite app_nil_r. apply Hl; assumption.
Qed.

Lemma file_close_took (h : handle) (f : string) d b (st : state) :
  objects st !! h = Some {| fo_name := f; fo_closed := false; fo_buffer := b |} ->
  disk st !! f = Some d ->
  exists r d',
    file_close w h st = (r, sealed h f d' st)
    /\ ((r = inr tt /\ d' = d ++ b)
        \/ (exists e, r = inl e /\ d' `sublist_of` d ++ b))
    /\ (reliable_log w -> r = inr tt).
Proof.
  intros Ho Hd. unfold file_close. rewrite Ho. cbn [fo_closed fo_name].
  destruct (write_out_took h f d b b st Ho Hd (fun E => E))
    as (r & d1 & b1 & E & Hc & Hr).
  rewrite E. exists r, d1. split.
  - f_equal. apply state_eq; cbn; try reflexivity.
    + apply app_nil_r.
    + apply list_insert_insert_eq.
  - split; [|exact Hr].
    destruct Hc as [(-> & -> & _)|(e & n & -> & -> & _)]; [left; auto|].
    right. exists e. split; [reflexivity|].
    apply sublist_app; [reflexivity|apply sublist_take].
Qed.

(** *** The run as a whole *)

Lemma insert_last {A} (l : list A) (x y : A) :
  <[length l := y]> (l ++ [x]) = l ++ [y].
Proof. induction l as [|a l IH]; cbn; [reflexivity|]. f_equal. exact IH. Qed.

Lemma installed_capture (f : string) (st : state) :
  terminal_like st (stdout st) ->
  capture_at (stdout st) (length (objects st)) f [] [] (installed f st).
Proof.
  intros Ht. unfold capture_at, installed. cbn.
  split; [reflexivity|]. split; [apply list_lookup_middle; reflexivity|].
  split; [apply lookup_insert_eq|].
  destruct Ht as [Ht|(h0 & fo & E & Ho & Hc)]; [left; exact Ht|].
  right. exists h0, fo. split; [exact E|]. split; [|exact Hc].
  cbn. apply lookup_app_l_Some. exact Ho.
Qed.

(** The end of a run, from what the body made and printed. *)
Lemma main_core (st : state) cs (msgs : list string) :
  terminal_like st (stdout st) ->
  can_open w (log_filename (now w)) = true ->
  snd (main_body w (log_filename (now w)) (installed (log_filename (now w)) st))
  = add_calls cs (attempts w msgs (installed (log_filename (now w)) st)) ->
  exists d ok,
    snd (main w st)
    = finished w ok cs (List.filter (term_accepts w) msgs) d st
    /\ d `sublist_of` List.filter (term_accepts w) msgs
    /\ (if ok
        then fst (main w st)
             = fst (main_body w (log_filename (now w))
                      (installed (log_filename (now w)) st))
        else exists e, fst (main w st) = inl e)
    /\ (stdout st = Terminal -> reliable_log w ->
        ok = true /\ d = List.filter (term_accepts w) msgs).
Proof.
  intros Ht Hopen Hb.
  pose proof (installed_capture (log_filename (now w)) st Ht) as Hc.
  destruct (attempts_took _ _ _ msgs [] [] _ Hc)
    as (d1 & b1 & Ea & Hs & Hl & _).
  cbn [app] in Hs, Hl. rewrite Ea in Hb.
  destruct (main_end st Hopen) as (_ & E). cbv zeta in E.
  pose proof (capture_at_took _ _ _ [] []
                (List.filter (term_accepts w) msgs) d1 b1 _ Hc)
    as (_ & Ho1 & Hd1 & _).
  destruct (main_body w (log_filename (now w))
              (installed (log_filename (now w)) st)) as [r sb].
  cbn [fst snd] in *. subst sb.
  destruct (file_close_took (length (objects st)) (log_filename (now w)) d1 b1
              (add_calls cs
                 (took (length (objects st)) (log_filename (now w))
                    (List.filter (term_accepts w) msgs) d1 b1
                    (installed (log_filename (now w)) st)))
              Ho1 Hd1) as (rc & d' & Ec & Hcase & Hr).
  rewrite Ec in E. rewrite E.
  destruct Hcase as [(-> & ->)|(e & -> & Hd')].
  - exists (d1 ++ b1), true. cbn [fst snd]. split.
    { apply state_eq; cbn; try reflexivity.
      - rewrite !insert_insert_eq. reflexivity.
      - rewrite list_insert_insert_eq. apply insert_last.
      - repeat rewrite <- app_assoc. reflexivity. }
    split; [exact Hs|]. split; [reflexivity|].
    intros H1 H2. split; [reflexivity|].
    apply Hl; [exact H1|exact H2].
  - exists d', false. cbn [fst snd]. split.
    { apply state_eq; cbn; try reflexivity.
      - rewrite !insert_insert_eq. reflexivity.
      - rewrite list_insert_insert_eq. apply insert_last.
      - repeat rewrite <- app_assoc. reflexivity. }
    split; [transitivity (d1 ++ b1); [exact Hd'|exact Hs]|].
    split; [eauto|].
    intros _ H2. specialize (Hr H2). discriminate Hr.
Qed.

(** Every run leaves a state of this form. *)
Lemma main_finished (st : state) :
  terminal_like st (stdout st) ->
  can_open w (log_filename (now w)) = true ->
  exists cs out d ok,
    cs `prefix_of` planned_calls (all_tools (discovered w))
    /\ Forall tools_ok cs
    /\ snd (main w st) = finished w ok cs out d st
    /\ d `sublist_of` out
    /\ (ok = false -> exists e, fst (main w st) = inl e)
    /\ (stdout st = Terminal -> reliable_log w -> ok = true /\ d = out).
Proof.
  intros Ht Hopen.
  destruct (main_body_follows (log_filename (now w))
              (installed (log_filename (now w)) st))
    as (cs & (msgs & Hm) & Hp & Hok).
  destruct (main_core st cs msgs Ht Hopen Hm) as (d & ok & E & Hs & Hr & Hl).
  exists cs, (List.filter (term_accepts w) msgs), d, ok.
  repeat (split; [assumption|]). split; [|exact Hl].
  intros ->. exact Hr.
Qed.

Lemma capture_on_attempts (out : list string) (st : state) (h : handle)
    (f : string) :
  capture_on st h f -> capture_on (attempts w out st) h f.
Proof.
  intros Hc. apply capture_over_at in Hc. destruct Hc as (d & b & Hc).
  destruct (attempts_took _ _ _ out d b st Hc) as (d1 & b1 & E & _).
  rewrite E. apply capture_over_at. exists d1, b1.
  apply (capture_at_took _ _ _ d b). exact Hc.
Qed.

Lemma capture_on_add_calls cs (st : state) (h : handle) (f : string) :
  capture_on st h f -> capture_on (add_calls cs st) h f.
Proof.
  intros (H1 & H2 & H3 & _). unfold capture_on, capture_over. cbn.
  repeat (split; [assumption|]). left. reflexivity.
Qed.

Section Emits.

Variable h : handle.
Variable f : string.
Hypothesis Hrel : reliable_log w.

Lemma emits_lift {A} (r : exn + A) : emits w h f (lift r) r [] [].
Proof. intros st _. cbn. rewrite add_calls_nil. reflexivity. Qed.

Lemma emits_ret {A} (a : A) : emits w h f (ret a) (inr a) [] [].
Proof. exact (emits_lift (inr a)). Qed.

Lemma emits_emit (c : ext_call) :
  emits w h f (emit (EvCall c)) (inr tt) [c] [].
Proof. intros st _. reflexivity. Qed.

Lemma emits_eq {A} (m : M A) (r : exn + A) cs cs' out out' :
  emits w h f m r cs out -> cs = cs' -> out = out' ->
  emits w h f m r cs' out'.
Proof. intros H <- <-. exact H. Qed.

Lemma emits_bind {A B} (m : M A) (k : A -> M B) (a : A) (r : exn + B)
    cs1 o1 cs2 o2 :
  emits w h f m (inr a) cs1 o1 -> emits w h f (k a) r cs2 o2 ->
  emits w h f (bind m k) r (cs1 ++ cs2) (o1 ++ o2).
Proof.
  intros Hm Hk st Hc. unfold bind. rewrite (Hm st Hc).
  rewrite (Hk _ (capture_on_add_calls cs1 _ h f
                   (capture_on_attempts o1 st h f Hc))).
  rewrite attempts_add_calls, add_calls_app, attempts_app. reflexivity.
Qed.

Lemma emits_raise {A B} (m : M A) (k : A -> M B) (e : exn) cs out :
  emits w h f m (inl e) cs out -> emits w h f (bind m k) (inl e) cs out.
Proof. intros Hm st Hc. unfold bind. rewrite (Hm st Hc). reflexivity. Qed.

Lemma emits_sys_write (m : string) :
  term_accepts w m = true -> emits w h f (sys_write w m) (inr tt) [] [m].
Proof.
  intros Ha st Hc. rewrite add_calls_nil.
  apply capture_over_at in Hc. destruct Hc as (d & b & Hc).
  destruct (sys_write_took _ _ _ d b m st Hc)
    as (r & d1 & b1 & E & _ & Hr & _).
  unfold attempts. cbn [fold_left]. rewrite E. cbn [snd].
  rewrite (Hr eq_refl Hrel Ha). reflexivity.
Qed.

Lemma emits_write_each (l : list string) :
  Forall (fun m => term_accepts w m = true) l ->
  emits w h f (write_each w l) (inr tt) [] l.
Proof.
  induction 1 as [|m l Hm _ IH]; cbn [write_each].
  - apply emits_ret.
  - apply (emits_bind _ _ tt _ [] [m] [] l); [|exact IH].
    apply emits_sys_write. exact Hm.
Qed.

Lemma emits_print (m : string) :
  term_accepts w m = true -> term_accepts w nl = true ->
  emits w h f (print w m) (inr tt) [] [m; nl].
Proof.
  intros Hm Hn. unfold print.
  apply (emits_bind _ _ tt _ [] [m] [] [nl]); apply emits_sys_write; assumption.
Qed.

Lemma emits_call {A} (c : ext_call) (r : ext A) :
  Forall (fun m => term_accepts w m = true) (ext_out r) ->
  emits w h f (call w c r) (ext_res r) [c] (ext_out r).
Proof.
  intros Hout. unfold call.
  apply (emits_bind _ _ tt _ [c] [] [] (ext_out r)); [apply emits_emit|].
  apply (emits_eq _ _ ([] ++ []) _ (ext_out r ++ []));
    [|reflexivity|apply app_nil_r].
  apply (emits_bind _ _ tt); [apply emits_write_each; exact Hout|].
  apply emits_lift.
Qed.

Lemma discovery_ready :
  ext_res (w_tool_list w) = inr tt -> ext_res (discovery w) = inr remote_tools.
Proof. unfold discovery. cbn. intros ->. reflexivity. Qed.


(** The body of [main] when every collaborator returns. *)
Lemma main_body_returns (response : string) :
  ready w ->
  ext_res (w_run w (all_tools remote_tools) request) = inr response ->
  Forall (fun m => term_accepts w m = true) (transcript w response) ->
  emits w h f (main_body w (log_filename (now w))) (inr tt)
    (planned_calls (all_tools remote_tools)) (transcript w response).
Proof.
  intros (R1 & R2 & R3 & R4 & R5 & R6) R7 Hall.
  unfold transcript, transcript_to_run, transcript_setup in *.
  rewrite !Forall_app in Hall.
  destruct Hall as (((O1 & O2 & O3 & O4 & O5 & O6) & B1 & O7) & B2).
  inversion B1 as [|? ? P1 B1']; subst. inversion B1' as [|? ? Pn _]; subst.
  inversion B2 as [|? ? P2 B2']; subst. inversion B2' as [|? ? _ B3]; subst.
  inversion B3 as [|? ? P3 B3']; subst. inversion B3' as [|? ? _ B4]; subst.
  inversion B4 as [|? ? P4 _]; subst.
  unfold main_body, report.
  eapply emits_eq.
  - eapply emits_bind; [rewrite <- R1; apply emits_call; exact O1|].
    eapply emits_bind; [rewrite <- R2; apply emits_call; exact O2|].
    eapply emits_bind;
      [rewrite <- (discovery_ready R3); apply emits_call; exact O3|].
    eapply emits_bind; [rewrite <- R4; apply emits_call; exact O4|].
    eapply emits_bind; [rewrite <- R5; apply emits_call; exact O5|].
    cbv zeta.
    eapply emits_bind; [rewrite <- R6; apply emits_call; exact O6|].
    eapply emits_bind; [apply emits_print; assumption|].
    eapply emits_bind; [rewrite <- R7; apply emits_call; exact O7|].
    eapply emits_bind; [apply emits_print; assumption|].
    eapply emits_bind; [apply emits_print; assumption|].
    apply emits_print; assumption.
  - reflexivity.
  - repeat rewrite <- app_assoc. reflexivity.
Qed.

(** The body of [main] when the agent's run raises. *)
Lemma main_body_run_raises (e : exn) :
  ready w ->
  ext_res (w_run w (all_tools remote_tools) request) = inl e ->
  Forall (fun m => term_accepts w m = true) (transcript_to_run w) ->
  emits w h f (main_body w (log_filename (now w))) (inl e)
    (planned_calls (all_tools remote_tools)) (transcript_to_run w).
Proof.
  intros (R1 & R2 & R3 & R4 & R5 & R6) R7 Hall.
  unfold transcript_to_run, transcript_setup in *. rewrite !Forall_app in Hall.
  destruct Hall as ((O1 & O2 & O3 & O4 & O5 & O6) & B1 & O7).
  inversion B1 as [|? ? P1 B1']; subst. inversion B1' as [|? ? Pn _]; subst.
  unfold main_body, report.
  eapply emits_eq.
  - eapply emits_bind; [rewrite <- R1; apply emits_call; exact O1|].
    eapply emits_bind; [rewrite <- R2; apply emits_call; exact O2|].
    eapply emits_bind;
      [rewrite <- (discovery_ready R3); apply emits_call; exact O3|].
    eapply emits_bind; [rewrite <- R4; apply emits_call; exact O4|].
    eapply emits_bind; [rewrite <- R5; apply emits_call; exact O5|].
    cbv zeta.
    eapply emits_bind; [rewrite <- R6; apply emits_call; exact O6|].
    eapply emits_bind; [apply emits_print; assumption|].
    apply emits_raise. rewrite <- R7. apply emits_call. exact O7.
  - reflexivity.
  - repeat rewrite <- app_assoc. reflexivity.
Qed.

End Emits.

Lemma finished_after_run (st : state) cs (out : list string) :
  stdout st = Terminal ->
  finished w true cs out out st = after_run w cs out st.
Proof.
  intros Hs. unfold finished, after_run. rewrite Hs. reflexivity.
Qed.

Lemma filter_all {A} (p : A -> bool) (l : list A) :
  Forall (fun x => p x = true) l -> List.filter p l = l.
Proof.
  induction 1 as [|x l Hx _ IH]; [reflexivity|].
  cbn. rewrite Hx, IH. reflexivity.
Qed.

(** A run from the terminal with a reliable log, from what its body does. *)
Lemma main_of_emits (st : state) (r : exn + unit) cs (out : list string) :
  stdout st = Terminal ->
  can_open w (log_filename (now w)) = true ->
  reliable_log w ->
  Forall (fun m => term_accepts w m = true) out ->
  emits w (length (objects st)) (log_filename (now w))
    (main_body w (log_filename (now w))) r cs out ->
  main w st = (r, after_run w cs out st).
Proof.
  intros Hs Hopen Hrel Hall Hb.
  assert (Ht : terminal_like st (stdout st)) by (left; exact Hs).
  pose proof (installed_capture (log_filename (now w)) st Ht) as Hc.
  rewrite Hs in Hc.
  assert (Hon : capture_on (installed (log_filename (now w)) st)
                  (length (objects st)) (log_filename (now w))).
  { apply capture_over_at. eauto. }
  specialize (Hb _ Hon).
  destruct (main_core st cs out Ht Hopen) as (d & ok & E & _ & Hr & Hl).
  { rewrite Hb. reflexivity. }
  destruct (Hl Hs Hrel) as (-> & ->).
  rewrite (filter_all _ _ Hall) in E.
  rewrite (finished_after_run _ _ _ Hs) in E.
  rewrite Hb in Hr. cbn [fst] in Hr.
  rewrite (surjective_pairing (main w st)), Hr, E. reflexivity.
Qed.

(** What a file object holds, in a state of the capture. *)
Lemma held_capture (t : sink) (h : handle) (f : string) d b (st : state) :
  capture_at t h f d b st -> held st h = d ++ b.
Proof.
  intros (_ & Ho & Hd & _). unfold held, text_of. rewrite Ho. cbn.
  rewrite Hd. reflexivity.
Qed.

End ClientFacts.

Lemma filter_calls (p : event -> bool) (cs : list ext_call) :
  (forall c, p (EvCall c) = false) -> List.filter p (map EvCall cs) = [].
Proof.
  intros Hp. induction cs as [|c cs IH]; [reflexivity|].
  cbn. rewrite Hp. exact IH.
Qed.

Ltac absurd_elem H :=
  repeat (apply elem_of_cons in H; destruct H as [H|H]; [discriminate H|]);
  apply elem_of_nil in H; destruct H.

(** The calls in the trace of a run are calls of its body. *)
Lemma main_calls (w : world) (P : ext_call -> Prop) (st : state) :
  (forall name s, follows w P (main_body w name) s
                    (planned_calls (all_tools (discovered w)))) ->
  forall c, EvCall c ∈ trace (snd (main w st)) -> EvCall c ∈ trace st \/ P c.
Proof.
  intros Hf c Hin.
  destruct (can_open w (log_filename (now w))) eqn:Hopen.
  - destruct (Hf (log_filename (now w)) (installed (log_filename (now w)) st))
      as (cs & Hm & _ & Hall).
    destruct (main_trace_of w st cs Hopen Hm) as (_ & Hcase & _).
    assert (Hmid : EvCall c ∈ map EvCall cs -> P c).
    { intros H. apply list_elem_of_fmap in H. destruct H as (c' & Hc & H).
      injection Hc as <-. rewrite Forall_forall in Hall. exact (Hall _ H). }
    destruct Hcase as [(_ & _ & E)|(e & _ & _ & _ & E)];
      rewrite E in Hin; rewrite !elem_of_app in Hin;
      (destruct Hin as [Hin|[Hin|[Hin|Hin]]];
       [left; exact Hin|absurd_elem Hin|right; exact (Hmid Hin)|absurd_elem Hin]).
  - rewrite (main_open_fails w st Hopen) in Hin. left. exact Hin.
Qed.

(** ** The claims about the client *)

(** C3: the claim fails where the closing of the log raises (the buffered
    text cannot be written out).  The [finally] block closes the log before
    it puts the sink back, so the assignment is skipped: [main] ends in the
    error of the closing, the log is closed, once, and [sys.stdout] is still
    the [Logger] of the run, not the sink found at the start. *)
Theorem close_failure_keeps_logger (w : world) (st : state) (e : exn) :
  can_open w (log_filename (now w)) = true ->
  let f := log_filename (now w) in
  let h := length (objects st) in
  fst (file_close w h (snd (main_body w f (installed f st)))) = inl e ->
  let st' := snd (main w st) in
  fst (main w st) = inl e
  /\ stdout st' = LoggerObj (stdout st) h
  /\ stdout st' <> stdout st
  /\ is_open_in st' h = false
  /\ exists delta,
       trace st' = trace st ++ delta
       /\ List.filter is_open delta = [EvOpen f h]
       /\ List.filter is_assign delta = [EvStdout (LoggerObj (stdout st) h)]
       /\ List.filter is_close delta = [EvClose h]
       /\ last delta = Some (EvClose h).
Proof.
  intros Hopen. cbv zeta. intros Hclose.
  destruct (main_body_follows w (log_filename (now w))
              (installed (log_filename (now w)) st)) as (cs & Hm & _ & _).
  destruct (main_trace_of w st cs Hopen Hm) as (Hclosed & Hcase & _ & Hkeep).
  specialize (Hkeep e Hclose).
  destruct Hcase as [(_ & Hs & _)|(e' & He' & Hr & _ & E)].
  { rewrite Hs in Hkeep. symmetry in Hkeep. destruct (sink_neq _ _ Hkeep). }
  rewrite Hclose in He'. injection He' as <-.
  split; [exact Hr|]. split; [exact Hkeep|].
  split; [rewrite Hkeep; apply sink_neq|]. split; [exact Hclosed|].
  eexists. split; [exact E|].
  split; [|split; [|split]].
  - rewrite !List.filter_app, !filter_calls by reflexivity. reflexivity.
  - rewrite !List.filter_app, !filter_calls by reflexivity. reflexivity.
  - rewrite !List.filter_app, !filter_calls by reflexivity. reflexivity.
  - rewrite !app_assoc. apply last_snoc.
Qed.

Lemma close_failure_keeps_logger_witness :
  let w := full_disk_world in
  let st := initial in
  let e := OSError "No space left on device" in
  let f := log_filename (now w) in
  let h := length (objects st) in
  let st' := snd (main w st) in
  fst (main w st) = inl e
  /\ stdout st' = LoggerObj (stdout st) h
  /\ stdout st' <> stdout st
  /\ is_open_in st' h = false
  /\ exists delta,
       trace st' = trace st ++ delta
       /\ List.filter is_open delta = [EvOpen f h]
       /\ List.filter is_assign delta = [EvStdout (LoggerObj (stdout st) h)]
       /\ List.filter is_close delta = [EvClose h]
       /\ last delta = Some (EvClose h).
Proof.
  apply (close_failure_keeps_logger full_disk_world initial
           (OSError "No space left on device")).
  - reflexivity.
  - vm_compute. reflexivity.
Defined.

(** X14: the sink found at the start is put back exactly when the closing
    of the log returns, as it does when the log never fails.  Then the trace
    of the run holds one opening, the two assignments to [sys.stdout]
    (the [Logger], then the sink found), and one closing before the second
    assignment; and the outcome of [main] is the outcome of its body.  In
    every case the log is closed when [main] ends. *)
Theorem release_unless_close_raises (w : world) (st : state) :
  can_open w (log_filename (now w)) = true ->
  let f := log_filename (now w) in
  let h := length (objects st) in
  let closing := fst (file_close w h (snd (main_body w f (installed f st)))) in
  let st' := snd (main w st) in
  (stdout st' = stdout st <-> closing = inr tt)
  /\ (reliable_log w -> closing = inr tt)
  /\ is_open_in st' h = false
  /\ (closing = inr tt ->
      fst (main w st) = fst (main_body w f (installed f st))
      /\ exists delta,
           trace st' = trace st ++ delta
           /\ List.filter is_open delta = [EvOpen f h]
           /\ List.filter is_assign delta
              = [EvStdout (LoggerObj (stdout st) h); EvStdout (stdout st)]
           /\ List.filter is_close delta = [EvClose h]
           /\ last delta = Some (EvStdout (stdout st))).
Proof.
  intros Hopen. cbv zeta.
  destruct (main_body_follows w (log_filename (now w))
              (installed (log_filename (now w)) st)) as (cs & Hm & _ & _).
  destruct (main_trace_of w st cs Hopen Hm) as (Hclosed & Hcase & _ & Hkeep).
  split; [|split; [apply file_close_reliable|split; [exact Hclosed|]]].
  - split.
    + intros Hs.
      destruct (fst (file_close w _ _)) as [e|[]]; [|reflexivity].
      rewrite (Hkeep e eq_refl) in Hs. destruct (sink_neq _ _ Hs).
    + intros Hr.
      destruct Hcase as [(_ & Hs & _)|(e & He & _)]; [exact Hs|].
      rewrite Hr in He. discriminate He.
  - intros Hr.
    destruct Hcase as [(Hres & _ & E)|(e & He & _)];
      [|rewrite Hr in He; discriminate He].
    split; [exact Hres|]. eexists. split; [exact E|].
    split; [|split; [|split]].
    + rewrite !List.filter_app, !filter_calls by reflexivity. reflexivity.
    + rewrite !List.filter_app, !filter_calls by reflexivity. reflexivity.
    + rewrite !List.filter_app, !filter_calls by reflexivity. reflexivity.
    + change [EvClose (length (objects st)); EvStdout (stdout st)]
        with ([EvClose (length (objects st))] ++ [EvStdout (stdout st)]).
      rewrite !app_assoc. apply last_snoc.
Qed.

Lemma release_unless_close_raises_witness :
  let w := no_backend_world in
  let st := initial in
  let f := log_filename (now w) in
  let h := length (objects st) in
  let closing := fst (file_close w h (snd (main_body w f (installed f st)))) in
  let st' := snd (main w st) in
  (stdout st' = stdout st <-> closing = inr tt)
  /\ (reliable_log w -> closing = inr tt)
  /\ is_open_in st' h = false
  /\ (closing = inr tt ->
      fst (main w st) = fst (main_body w f (installed f st))
      /\ exists delta,
           trace st' = trace st ++ delta
           /\ List.filter is_open delta = [EvOpen f h]
           /\ List.filter is_assign delta
              = [EvStdout (LoggerObj (stdout st) h); EvStdout (stdout st)]
           /\ List.filter is_close delta = [EvClose h]
           /\ last delta = Some (EvStdout (stdout st))).
Proof.
  exact (release_unless_close_raises no_backend_world initial eq_refl).
Defined.

(** The run on a full disk: the terminal has the nine pieces of text, the
    file of the log is empty, and a print after the run reaches the terminal
    and raises. *)
Example full_disk_run :
  let st' := snd (main full_disk_world initial) in
  fst (main full_disk_world initial) = inl (OSError "No space left on device")
  /\ stdout st' = LoggerObj Terminal 0
  /\ length (console st') = 9
  /\ disk st' !! log_filename sample_time = Some []
  /\ print full_disk_world "next" st'
     = (inl closed_file, with_console (console st' ++ ["next"]) st').
Proof. vm_compute. repeat split. Qed.

(** X6: when the log cannot be opened, [main] raises the error of [open]
    before anything else happens: the sink is never replaced, no collaborator
    is called, no file is created, and nothing is left to release. *)
Lemma main_without_log (w : world) (st : state) :
  can_open w (log_filename (now w)) = false ->
  main w st = (inl (OSError (log_filename (now w))), st).
Proof. apply main_open_fails. Qed.

Lemma main_without_log_witness :
  main read_only_world initial
  = (inl (OSError (log_filename (now read_only_world))), initial).
Proof. exact (main_without_log read_only_world initial eq_refl). Defined.




(** On a disk that fills up a write can raise after its text has reached
    the file: here the third write raises, and the file holds the three
    texts. *)
Example write_fails_after_writing :
  let st := attempts filling_disk_world ["debit"; nl] capturing in
  fst (sys_write filling_disk_world "credit" st)
  = inl (OSError "No space left on device")
  /\ console (snd (sys_write filling_disk_world "credit" st))
     = ["debit"; nl; "credit"]
  /\ held (snd (sys_write filling_disk_world "credit" st)) 0
     = ["debit"; nl; "credit"].
Proof. vm_compute. repeat split. Qed.

(** The state a run leaves is one a next run can start from. *)
Lemma finished_terminal_like (w : world) (ok : bool) cs (out d : list string)
    (st : state) :
  stdout st = Terminal ->
  terminal_like (finished w ok cs out d st) (stdout (finished w ok cs out d st)).
Proof.
  intros Hs. unfold terminal_like, finished. cbn. rewrite Hs.
  destruct ok; [left; reflexivity|]. right.
  exists (length (objects st)),
    {| fo_name := log_filename (now w); fo_closed := true; fo_buffer := [] |}.
  split; [reflexivity|]. split; [|reflexivity].
  apply list_lookup_middle. reflexivity.
Qed.

(** C9: the log is opened for writing, not for appending.  Two runs that
    start within the same minute derive the same file name, and after the
    second run the file holds what the log of the second run took, and
    nothing of the first run; no other file has appeared.  What the log of
    a run took is part of what the run printed, and all of it when the log
    never fails. *)
Theorem same_minute_overwrites (w1 w2 : world) (st : state) :
  stdout st = Terminal ->
  same_minute (now w1) (now w2) ->
  can_open w1 (log_filename (now w1)) = true ->
  can_open w2 (log_filename (now w2)) = true ->
  let f := log_filename (now w1) in
  let st1 := snd (main w1 st) in
  let st2 := snd (main w2 st1) in
  log_filename (now w2) = f
  /\ exists d1 d2 out1 out2,
       console st1 = console st ++ out1
       /\ disk st1 !! f = Some d1
       /\ console st2 = console st1 ++ out2
       /\ disk st2 !! f = Some d2
       /\ (d1 <> [] -> disk st2 !! f <> Some (d1 ++ d2))
       /\ dom (disk st2) = dom (disk st1)
       /\ d1 `sublist_of` out1
       /\ d2 `sublist_of` out2
       /\ (reliable_log w1 -> d1 = out1)
       /\ (reliable_log w1 -> reliable_log w2 -> d2 = out2).
Proof.
  intros Hs Hmin Ho1 Ho2. cbv zeta.
  assert (Hf : log_filename (now w2) = log_filename (now w1)).
  { symmetry. apply same_minute_filename. exact Hmin. }
  split; [exact Hf|].
  destruct (main_finished w1 st (or_introl Hs) Ho1)
    as (cs1 & out1 & d1 & ok1 & _ & _ & E1 & S1 & _ & L1).
  rewrite E1.
  pose proof (finished_terminal_like w1 ok1 cs1 out1 d1 st Hs) as Ht1.
  destruct (main_finished w2 _ Ht1 Ho2)
    as (cs2 & out2 & d2 & ok2 & _ & _ & E2 & S2 & _ & L2).
  rewrite E2.
  exists d1, d2, out1, out2. cbn [console disk finished]. rewrite Hf.
  split; [reflexivity|]. split; [apply lookup_insert_eq|].
  split; [reflexivity|]. split; [apply lookup_insert_eq|].
  split; [|split; [|split; [exact S1|split; [exact S2|split]]]].
  - intros Hne. rewrite lookup_insert_eq. intros E. injection E as E.
    apply (f_equal (@length string)) in E. rewrite length_app in E.
    destruct d1; [congruence|cbn in E; lia].
  - apply dom_insert_lookup_L. rewrite lookup_insert_eq. eauto.
  - intros H1. exact (proj2 (L1 Hs H1)).
  - intros H1 H2. destruct (L1 Hs H1) as (-> & _).
    exact (proj2 (L2 Hs H2)).
Qed.

Lemma same_minute_overwrites_witness :
  let w1 := sample_world in
  let w2 := later_world in
  let st := initial in
  let f := log_filename (now w1) in
  let st1 := snd (main w1 st) in
  let st2 := snd (main w2 st1) in
  log_filename (now w2) = f
  /\ exists d1 d2 out1 out2,
       console st1 = console st ++ out1
       /\ disk st1 !! f = Some d1
       /\ console st2 = console st1 ++ out2
       /\ disk st2 !! f = Some d2
       /\ (d1 <> [] -> disk st2 !! f <> Some (d1 ++ d2))
       /\ dom (disk st2) = dom (disk st1)
       /\ d1 `sublist_of` out1
       /\ d2 `sublist_of` out2
       /\ (reliable_log w1 -> d1 = out1)
       /\ (reliable_log w1 -> reliable_log w2 -> d2 = out2).
Proof.
  refine (same_minute_overwrites sample_world later_world initial
            eq_refl _ eq_refl eq_refl).
  unfold same_minute. repeat split.
Defined.

(** The two runs of the witness: nine pieces of text each, and nine in the
    file at the end. *)
Example two_runs :
  let st1 := snd (main sample_world initial) in
  let st2 := snd (main later_world st1) in
  length (console st1) = 9
  /\ length (console st2) = 18
  /\ length (text_of st2 (log_filename sample_time)) = 9
  /\ size (disk st2) = 1.
Proof. vm_compute. repeat split. Qed.

(** On a full disk the file is created, and truncated by the second run,
    all the same: it is empty after each. *)
Example two_runs_full_disk :
  let st1 := snd (main full_disk_world initial) in
  let st2 := snd (main full_disk_world st1) in
  length (console st1) = 9
  /\ length (console st2) = 10
  /\ text_of st1 (log_filename sample_time) = []
  /\ text_of st2 (log_filename sample_time) = []
  /\ size (disk st2) = 1.
Proof. vm_compute. repeat split. Qed.

(** ** Start-up *)

Lemma not_spec (v : option string) :
  not_ v = true <-> v = None \/ v = Some EmptyString.
Proof.
  destruct v as [[|a k]|]; cbn;
    (split; [intros H; try discriminate; auto
            |intros [H|H]; try discriminate; reflexivity]).
Qed.

Lemma api_key_absent (w : world) :
  api_key w = None
  <-> environ w !! "DEEPSEEK_API_KEY" = None
      /\ dotenv w !! "DEEPSEEK_API_KEY" = None.
Proof. unfold api_key, getenv, load_dotenv. apply lookup_union_None. Qed.

Lemma api_key_environ_first (w : world) (v : string) :
  environ w !! "DEEPSEEK_API_KEY" = Some v -> api_key w = Some v.
Proof.
  intros H. unfold api_key, getenv, load_dotenv.
  apply lookup_union_Some_l. exact H.
Qed.

(** C4, as amended: when the credential is absent, or set to the empty
    string, the script raises the configuration error at once: no
    collaborator has been called, the sink is untouched and no file exists
    that did not before.  When it is set to a string that is not empty, the
    script goes on to build the model client and to [main]. *)
Theorem missing_key_is_fatal (w : world) (st : state) :
  (api_key w = None
   <-> environ w !! "DEEPSEEK_API_KEY" = None
       /\ dotenv w !! "DEEPSEEK_API_KEY" = None)
  /\ (api_key w = None \/ api_key w = Some EmptyString ->
      configuration w = inl (ValueError no_api_key)
      /\ script w st = (inl (ValueError no_api_key), st))
  /\ (forall k, api_key w = Some k -> k <> EmptyString ->
      configuration w = inr k
      /\ script w st
         = (do _ <- call w (CDeepSeek "deepseek-chat" k 0) (w_deepseek w);
            main w) st).
Proof.
  split; [apply api_key_absent|]. split.
  - intros H. apply not_spec in H.
    unfold script, configuration, bind, lift. rewrite H. auto.
  - intros k Hk Hne.
    assert (Hn : not_ (api_key w) = false).
    { rewrite Hk. destruct k; [congruence|reflexivity]. }
    unfold script, configuration, bind, lift. rewrite Hn, Hk. auto.
Qed.

(** C4, as stated, fails: a credential can be present and start-up still
    stop, when the variable is set to the empty string. *)
Lemma present_key_may_stop :
  api_key empty_key_world = Some EmptyString
  /\ script empty_key_world initial = (inl (ValueError no_api_key), initial)
  /\ ~ (forall w : world,
          (api_key w = None -> configuration w = inl (ValueError no_api_key))
          /\ (api_key w <> None -> exists k, configuration w = inr k)).
Proof.
  split; [reflexivity|]. split; [reflexivity|].
  intros H. destruct (H empty_key_world) as [_ Hp].
  destruct Hp as [k Hk]; [discriminate|]. vm_compute in Hk. discriminate.
Qed.

Example key_from_dotenv :
  api_key dotenv_world = Some "sk-file"
  /\ configuration dotenv_world = inr "sk-file"
  /\ fst (script dotenv_world initial) = inr tt
  /\ configuration (world_with ∅ ∅ sample_time) = inl (ValueError no_api_key)
  /\ script (world_with ∅ ∅ sample_time) initial
     = (inl (ValueError no_api_key), initial).
Proof. vm_compute. repeat split. Qed.

(** ** The handles of the agent *)

Lemma local_names :
  map t_name local_tools = ["internal_records"; "bank_statement"].
Proof. reflexivity. Qed.

Lemma registered_names :
  map fst registered = ["get_exchange_rate"; "get_fee_description"].
Proof. reflexivity. Qed.




(** In the sample run the agent is built, and run, with the four handles. *)
Example sample_agent :
  List.filter (fun e => match e with
                        | EvCall (CFunctionAgent _ _ _) => true
                        | EvCall (CAgentRun _ _) => true
                        | _ => false
                        end)
    (trace (snd (main sample_world initial)))
  = [EvCall (CFunctionAgent "FinanceAgent" (all_tools remote_tools)
               system_prompt);
     EvCall (CAgentRun (all_tools remote_tools) request)].
Proof. vm_compute. reflexivity. Qed.

(** ** Further properties: whole runs *)

(** X1: a run that starts from the terminal, in which every collaborator
    returns, the terminal takes every message and the log never fails,
    returns; the terminal and the log both receive, in this order, the
    output of the six set-up calls, the opening banner, the output of the
    agent's run, the closing banner, the agent's answer and the notice that
    names the log; the seven calls are made in the order of the source, the
    agent being built and run with the four handles, and nothing else
    changes. *)
Theorem successful_run (w : world) (st : state) (response : string) :
  stdout st = Terminal ->
  can_open w (log_filename (now w)) = true ->
  reliable_log w ->
  ready w ->
  ext_res (w_run w (all_tools remote_tools) request) = inr response ->
  Forall (fun m => term_accepts w m = true) (transcript w response) ->
  main w st
  = (inr tt,
     after_run w (planned_calls (all_tools remote_tools))
       (transcript w response) st).
Proof.
  intros Hs Hopen Hrel Hready Hrun Hall.
  apply (main_of_emits w st _ _ _ Hs Hopen Hrel Hall).
  apply main_body_returns; assumption.
Qed.

Lemma successful_run_witness :
  main sample_world initial
  = (inr tt,
     after_run sample_world (planned_calls (all_tools remote_tools))
       (transcript sample_world "report") initial).
Proof.
  apply (successful_run sample_world initial "report").
  - reflexivity.
  - reflexivity.
  - split; intros; reflexivity.
  - repeat split.
  - reflexivity.
  - repeat constructor.
Defined.

(** X2: when everything succeeds up to the agent's run and the run raises,
    and the log never fails, [main] raises that same exception; the log
    holds what was printed up to the failure, the opening banner included
    and the closing banner not; the sink is put back and the log closed. *)
Theorem backend_failure (w : world) (st : state) (e : exn) :
  stdout st = Terminal ->
  can_open w (log_filename (now w)) = true ->
  reliable_log w ->
  ready w ->
  ext_res (w_run w (all_tools remote_tools) request) = inl e ->
  Forall (fun m => term_accepts w m = true) (transcript_to_run w) ->
  main w st
  = (inl e,
     after_run w (planned_calls (all_tools remote_tools))
       (transcript_to_run w) st).
Proof.
  intros Hs Hopen Hrel Hready Hrun Hall.
  apply (main_of_emits w st _ _ _ Hs Hopen Hrel Hall).
  apply main_body_run_raises; assumption.
Qed.

Lemma backend_failure_witness :
  main no_backend_world initial
  = (inl (Failure "backend"),
     after_run no_backend_world (planned_calls (all_tools remote_tools))
       (transcript_to_run no_backend_world) initial).
Proof.
  apply (backend_failure no_backend_world initial).
  - reflexivity.
  - reflexivity.
  - split; intros; reflexivity.
  - repeat split.
  - reflexivity.
  - repeat constructor.
Defined.





(** X5: when the discovery of the server's tools raises, [main] ends in an
    exception, and neither is the agent built nor is it run; the log is
    closed all the same, and the sink is put back when the closing does not
    fail. *)
Theorem discovery_failure (w : world) (st : state) (e : exn) :
  ext_res (w_tool_list w) = inl e ->
  can_open w (log_filename (now w)) = true ->
  (exists e', fst (main w st) = inl e')
  /\ (forall c, EvCall c ∈ trace (snd (main w st)) ->
        EvCall c ∈ trace st
        \/ match c with
           | CFunctionAgent _ _ _ | CAgentRun _ _ => False
           | _ => True
           end)
  /\ is_open_in (snd (main w st)) (length (objects st)) = false
  /\ (reliable_log w -> stdout (snd (main w st)) = stdout st).
Proof.
  intros He Hopen.
  destruct (main_body_no_agent w (log_filename (now w))
              (installed (log_filename (now w)) st) e He)
    as ((cs & Hm & _) & (e' & Hb)).
  destruct (main_trace_of w st cs Hopen Hm) as (Hclosed & Hcase & Hrel & _).
  split; [|split; [|split; [exact Hclosed|exact Hrel]]].
  - destruct Hcase as [(E & _)|(e2 & _ & E & _)]; [|eauto].
    rewrite E, Hb. eauto.
  - apply (main_calls w before_agent st).
    intros name s. exact (proj1 (main_body_no_agent w name s e He)).
Qed.

Lemma discovery_failure_witness :
  let w := no_server_world in
  let st := initial in
  (exists e', fst (main w st) = inl e')
  /\ (forall c, EvCall c ∈ trace (snd (main w st)) ->
        EvCall c ∈ trace st
        \/ match c with
           | CFunctionAgent _ _ _ | CAgentRun _ _ => False
           | _ => True
           end)
  /\ is_open_in (snd (main w st)) (length (objects st)) = false
  /\ (reliable_log w -> stdout (snd (main w st)) = stdout st).
Proof.
  exact (discovery_failure no_server_world initial (Failure "connection")
           eq_refl eq_refl).
Defined.

Example no_server_run :
  main no_server_world initial
  = (inl (Failure "connection"),
     after_run no_server_world
       [CBasicMCPClient ["my_finance_mcp_server.py"]; CMcpToolSpec; CToolList]
       [] initial).
Proof. vm_compute. reflexivity. Qed.

(** A terminal that cannot encode the text of the client: the message is in
    neither place, and the run ends with the sink put back. *)
Example ascii_terminal :
  let st' := snd (main ascii_terminal_world initial) in
  (exists m, fst (main ascii_terminal_world initial)
             = inl (UnicodeEncodeError m))
  /\ console st' = []
  /\ disk st' !! log_filename sample_time = Some []
  /\ stdout st' = Terminal.
Proof. cbv zeta. split; [eexists|]; vm_compute; repeat split. Qed.

(** ** Further properties: [Logger.flush], [Logger.write] *)

(** X8: [Logger.flush] during the capture.  The terminal is flushed first,
    and the log only when that returns.  A flush adds nothing to the
    terminal and nothing to what the log holds; when it returns, all the log
    held is in the file and nothing is lost; when the terminal's flush
    raises, nothing has changed.  It returns when the terminal's flush does
    and the log never fails. *)
Theorem flush_spec (w : world) (h : handle) (f : string) (st : state) :
  capture_on st h f ->
  let r := sink_flush w (stdout st) st in
  console (snd r) = console st
  /\ held (snd r) h `sublist_of` held st h
  /\ capture_on (snd r) h f
  /\ (fst r = inr tt ->
      term_flush w = None
      /\ held (snd r) h = held st h
      /\ text_of (snd r) f = held st h)
  /\ (forall e, term_flush w = Some e -> r = (inl e, st))
  /\ (term_flush w = None -> reliable_log w -> fst r = inr tt).
Proof.
  intros Hon. cbv zeta.
  pose proof Hon as Hc. apply capture_over_at in Hc.
  destruct Hc as (d & b & Hc).
  pose proof (held_capture _ _ _ _ _ _ Hc) as Hh.
  pose proof Hc as (H1 & H2 & H3 & _).
  rewrite H1. cbn [sink_flush]. unfold bind.
  destruct (term_flush w) as [e0|] eqn:Hf.
  - cbv beta iota. cbn [fst snd].
    split; [reflexivity|]. split; [reflexivity|]. split; [exact Hon|].
    split; [intros C; discriminate C|].
    split; [|intros C; discriminate C].
    intros e E. injection E as <-. reflexivity.
  - unfold file_flush. rewrite H2. cbn [fo_closed].
    destruct (write_out_took w h f d b b st H2 H3 (fun E => E))
      as (r & d1 & b1 & E & Hcase & Hr).
    rewrite E. cbn [fst snd].
    pose proof (capture_at_took _ _ _ _ _ [] d1 b1 _ Hc) as Hc1.
    rewrite (held_capture _ _ _ _ _ _ Hc1), Hh.
    split; [apply app_nil_r|].
    split; [|split; [apply capture_over_at; eauto|split; [|split]]].
    + destruct Hcase as [(_ & -> & ->)|(e & n & _ & Hd1 & Hb1)].
      * rewrite app_nil_r. reflexivity.
      * exact (write_out_loses _ _ _ _ n Hd1 Hb1).
    + intros ->. split; [reflexivity|].
      destruct Hcase as [(_ & -> & ->)|(e & n & C & _)]; [|discriminate C].
      rewrite app_nil_r. split; [reflexivity|].
      unfold text_of. cbn. rewrite lookup_insert_eq. reflexivity.
    + intros e C. discriminate C.
    + exact (fun _ => Hr).
Qed.

Lemma flush_spec_witness :
  let w := sample_world in
  let h := 0 in
  let f := log_filename sample_time in
  let st := attempts w ["debit"; nl] capturing in
  let r := sink_flush w (stdout st) st in
  console (snd r) = console st
  /\ held (snd r) h `sublist_of` held st h
  /\ capture_on (snd r) h f
  /\ (fst r = inr tt ->
      term_flush w = None
      /\ held (snd r) h = held st h
      /\ text_of (snd r) f = held st h)
  /\ (forall e, term_flush w = Some e -> r = (inl e, st))
  /\ (term_flush w = None -> reliable_log w -> fst r = inr tt).
Proof.
  apply (flush_spec sample_world 0 (log_filename sample_time)
           (attempts sample_world ["debit"; nl] capturing)).
  split; [reflexivity|].
  split; [exists ["debit"; nl]; reflexivity|].
  split; [exists []; vm_compute; reflexivity|left; reflexivity].
Defined.

(** During the capture a flush writes the buffer out; on a full disk it
    raises, and here the buffered text is lost; once the run is over, a
    flush through the [Logger] of that run raises. *)
Example flush_during_and_after :
  let st := attempts sample_world ["debit"; nl] capturing in
  text_of st (log_filename sample_time) = []
  /\ held st 0 = ["debit"; nl]
  /\ fst (sink_flush sample_world (stdout st) st) = inr tt
  /\ text_of (snd (sink_flush sample_world (stdout st) st))
       (log_filename sample_time) = ["debit"; nl]
  /\ fst (sink_flush full_disk_world (stdout st) st)
     = inl (OSError "No space left on device")
  /\ held (snd (sink_flush full_disk_world (stdout st) st)) 0 = []
  /\ fst (sink_flush sample_world (LoggerObj Terminal 0)
            (snd (main sample_world initial)))
     = inl closed_file.
Proof. vm_compute. repeat split. Qed.

(** X9: a write through a [Logger] whose log is closed still writes to the
    sink below it, and then raises the error of a closed file: the text is
    on the terminal and not in the log. *)
Theorem write_after_close (w : world) (t : sink) (h : handle)
    (fo : file_object) (m : string) (st : state) :
  objects st !! h = Some fo ->
  fo_closed fo = true ->
  sink_write w (LoggerObj t h) m st
  = (match fst (sink_write w t m st) with
     | inr _ => inl closed_file
     | inl e => inl e
     end,
     snd (sink_write w t m st))
  /\ (t = Terminal -> term_accepts w m = true ->
      sink_write w (LoggerObj t h) m st
      = (inl closed_file, with_console (console st ++ [m]) st)).
Proof.
  intros Ho Hc.
  assert (E : sink_write w (LoggerObj t h) m st
              = (match fst (sink_write w t m st) with
                 | inr _ => inl closed_file
                 | inl e => inl e
                 end,
                 snd (sink_write w t m st))).
  { cbn [sink_write]. unfold bind.
    pose proof (sink_write_frame w t m st) as (_ & _ & Hshape).
    destruct (sink_write w t m st) as [[e|[]] st1]; cbn in *; [reflexivity|].
    destruct (shape_lookup st st1 h fo Hshape Ho) as (fo1 & Ho1 & _ & Hc1).
    unfold file_write. rewrite Ho1, Hc1, Hc. reflexivity. }
  split; [exact E|].
  intros -> Hm. rewrite E. cbn. rewrite Hm. reflexivity.
Qed.

Lemma write_after_close_witness :
  let w := sample_world in
  let t := Terminal in
  let h := 0 in
  let m := "late" in
  let st := snd (main sample_world initial) in
  sink_write w (LoggerObj t h) m st
  = (match fst (sink_write w t m st) with
     | inr _ => inl closed_file
     | inl e => inl e
     end,
     snd (sink_write w t m st))
  /\ (t = Terminal -> term_accepts w m = true ->
      sink_write w (LoggerObj t h) m st
      = (inl closed_file, with_console (console st ++ [m]) st)).
Proof.
  exact (write_after_close sample_world Terminal 0
           {| fo_name := log_filename sample_time; fo_closed := true;
              fo_buffer := [] |}
           "late" (snd (main sample_world initial)) eq_refl eq_refl).
Defined.

(** ** Further properties: start-up *)

Lemma configuration_of_key (w : world) :
  configuration w
  = match api_key w with
    | Some v => if decide (v = EmptyString) then inl (ValueError no_api_key)
                else inr v
    | None => inl (ValueError no_api_key)
    end.
Proof.
  unfold configuration. destruct (api_key w) as [[|a v]|]; reflexivity.
Qed.

(** X7: the credential comes from the environment of the process when the
    variable is set there, empty or not, and from the .env file only when it
    is not: a variable set to the empty string in the environment stops the
    start-up even when the .env file holds a key. *)
Theorem configuration_sources (w : world) :
  (forall v, environ w !! "DEEPSEEK_API_KEY" = Some v ->
     configuration w
     = if decide (v = EmptyString) then inl (ValueError no_api_key) else inr v)
  /\ (environ w !! "DEEPSEEK_API_KEY" = None ->
      configuration w
      = match dotenv w !! "DEEPSEEK_API_KEY" with
        | Some v => if decide (v = EmptyString)
                    then inl (ValueError no_api_key) else inr v
        | None => inl (ValueError no_api_key)
        end)
  /\ (environ w !! "DEEPSEEK_API_KEY" = Some EmptyString ->
      forall st, script w st = (inl (ValueError no_api_key), st)).
Proof.
  split; [|split].
  - intros v Hv. rewrite configuration_of_key.
    rewrite (api_key_environ_first w v Hv). reflexivity.
  - intros Hn. rewrite configuration_of_key.
    unfold api_key, getenv, load_dotenv. rewrite lookup_union_r by exact Hn.
    reflexivity.
  - intros Hv st. unfold script, bind, lift.
    rewrite configuration_of_key, (api_key_environ_first w _ Hv). reflexivity.
Qed.

Example empty_variable_shadows_dotenv :
  dotenv shadowed_world !! "DEEPSEEK_API_KEY" = Some "sk-file"
  /\ script shadowed_world initial = (inl (ValueError no_api_key), initial).
Proof. split; reflexivity. Qed.

(** ** Further properties: the script *)

Lemma write_each_terminal (w : world) (l : list string) (st : state) :
  stdout st = Terminal ->
  Forall (fun m => term_accepts w m = true) l ->
  write_each w l st = (inr tt, with_console (console st ++ l) st).
Proof.
  intros Hs Hall. revert st Hs.
  induction Hall as [|m l Hm _ IH]; intros st Hs.
  - destruct st. unfold with_console. cbn. rewrite app_nil_r. reflexivity.
  - cbn [write_each]. unfold bind, sys_write. rewrite Hs. cbn. rewrite Hm.
    rewrite IH by exact Hs. unfold with_console. cbn.
    rewrite <- app_assoc. reflexivity.
Qed.

(** X10: with a credential that is set and not empty, and a terminal that
    takes what the construction of the model client prints, the script
    builds the client and, when that returns, is [main] from then on: what
    was printed before [main] is on the terminal and in no log.  When the
    construction raises, the script raises the same, and [main] is never
    entered: no log, no server. *)
Theorem script_enters_main (w : world) (st : state) (key : string) :
  stdout st = Terminal ->
  api_key w = Some key ->
  key <> EmptyString ->
  Forall (fun m => term_accepts w m = true) (ext_out (w_deepseek w)) ->
  script w st
  = match ext_res (w_deepseek w) with
    | inr _ => main w (client_built w key st)
    | inl e => (inl e, client_built w key st)
    end.
Proof.
  intros Hs Hk Hne Hall.
  unfold script. unfold bind at 1. unfold lift at 1.
  rewrite configuration_of_key, Hk.
  destruct (decide (key = EmptyString)) as [Heq|_]; [contradiction|].
  cbv [bind call emit lift].
  rewrite (write_each_terminal w (ext_out (w_deepseek w))
             (log_event (EvCall (CDeepSeek "deepseek-chat" key 0)) st) Hs Hall).
  destruct (ext_res (w_deepseek w)) as [e|[]]; reflexivity.
Qed.

Lemma script_enters_main_witness :
  script sample_world initial
  = match ext_res (w_deepseek sample_world) with
    | inr _ => main sample_world (client_built sample_world "sk-test" initial)
    | inl e => (inl e, client_built sample_world "sk-test" initial)
    end.
Proof.
  apply (script_enters_main sample_world initial "sk-test").
  - reflexivity.
  - reflexivity.
  - discriminate.
  - constructor.
Defined.

(** ** Further properties of the tool server *)

Lemma rate_values_distinct :
  7.2%float <> 7.8%float /\ 7.2%float <> 1.0%float /\ 7.8%float <> 1.0%float.
Proof.
  repeat split; intros H.
  - apply (f_equal (fun x => (x <? 7.5)%float)) in H. vm_compute in H.
    discriminate.
  - apply (f_equal (fun x => (x <? 2)%float)) in H. vm_compute in H.
    discriminate.
  - apply (f_equal (fun x => (x <? 2)%float)) in H. vm_compute in H.
    discriminate.
Qed.

Lemma ascii_upper_ascii (s : pystr) :
  Forall (fun c => (c < 128)%N) s ->
  Forall (fun c => (c < 128)%N) (map ascii_upper s).
Proof.
  induction 1 as [|c s Hc _ IH]; cbn; constructor; [|exact IH].
  unfold ascii_upper. destruct ((97 <=? c)%N && (c <=? 122)%N); lia.
Qed.

Lemma ascii_upper_idem (c : N) : ascii_upper (ascii_upper c) = ascii_upper c.
Proof.
  unfold ascii_upper.
  destruct ((97 <=? c)%N && (c <=? 122)%N) eqn:E; [|rewrite E; reflexivity].
  apply andb_true_iff in E. destruct E as [E1 E2].
  apply N.leb_le in E1, E2.
  replace ((97 <=? c - 32)%N) with false
    by (symmetry; apply N.leb_gt; lia).
  reflexivity.
Qed.

Lemma map_ascii_upper_idem (s : pystr) :
  map ascii_upper (map ascii_upper s) = map ascii_upper s.
Proof. rewrite map_map. apply map_ext. apply ascii_upper_idem. Qed.

(** X11: on a string of ASCII characters the lookup sees the letters only up
    to case and nothing else: such a string gets 7.2 exactly when it spells
    USD in letters of either case, 7.8 exactly when it spells EUR, and 1.0
    whenever its length is not three, so that no blank is trimmed and no
    longer code is cut; upper-casing the argument first changes nothing. *)
Theorem ascii_codes (u : N -> list N) (s : pystr) :
  Forall (fun c => (c < 128)%N) s ->
  (get_exchange_rate u s = 7.2%float <-> map ascii_upper s = lit "USD")
  /\ (get_exchange_rate u s = 7.8%float <-> map ascii_upper s = lit "EUR")
  /\ (length s <> 3 -> get_exchange_rate u s = 1.0%float)
  /\ get_exchange_rate u (map ascii_upper s) = get_exchange_rate u s.
Proof.
  intros Hs. destruct rate_values_distinct as (D1 & D2 & D3).
  rewrite (get_exchange_rate_caseless u s _ Hs eq_refl).
  rewrite (get_exchange_rate_caseless u (map ascii_upper s) _
             (ascii_upper_ascii s Hs) eq_refl).
  rewrite map_ascii_upper_idem, rates_lookup.
  assert (Hl : length (map ascii_upper s) = length s) by apply length_map.
  assert (Hk : lit "USD" <> lit "EUR") by discriminate.
  destruct (decide (map ascii_upper s = lit "USD")) as [E|E];
    [|destruct (decide (map ascii_upper s = lit "EUR")) as [E'|E']];
    cbn [from_option id].
  - split; [tauto|]. split; [split; intros H; congruence|].
    split; [rewrite E in Hl; cbn in Hl; congruence|reflexivity].
  - split; [split; intros H; congruence|]. split; [tauto|].
    split; [rewrite E' in Hl; cbn in Hl; congruence|reflexivity].
  - split; [split; intros H; congruence|].
    split; [split; intros H; congruence|]. split; reflexivity.
Qed.

Lemma ascii_codes_witness :
  let u := fun c : N => [c] in
  let s := lit " usd" in
  (get_exchange_rate u s = 7.2%float <-> map ascii_upper s = lit "USD")
  /\ (get_exchange_rate u s = 7.8%float <-> map ascii_upper s = lit "EUR")
  /\ (length s <> 3 -> get_exchange_rate u s = 1.0%float)
  /\ get_exchange_rate u (map ascii_upper s) = get_exchange_rate u s.
Proof.
  apply (ascii_codes (fun c : N => [c]) (lit " usd")).
  repeat constructor.
Defined.

Example untrimmed_and_longer_codes u :
  get_exchange_rate u (lit " usd") = 1.0%float
  /\ get_exchange_rate u (lit "usd ") = 1.0%float
  /\ get_exchange_rate u (lit "USDT") = 1.0%float
  /\ get_exchange_rate u (lit "$") = 1.0%float.
Proof. repeat split. Qed.

Lemma SFlt_le_trans (x y z : spec_float) :
  SFltb x y = true -> SFleb y z = true -> SFltb x z = true.
Proof.
  unfold SFltb, SFleb.
  destruct x as [sx|sx| |sx mx ex], y as [sy|sy| |sy my ey],
    z as [sz|sz| |sz mz ez];
    try destruct sx; try destruct sy; try destruct sz;
    cbn; try discriminate; try reflexivity;
    change (PosDef.Pos.compare_cont Eq) with Pos.compare;
    repeat match goal with
           | |- context [(?a ?= ?b)%Z] => destruct (Z.compare_spec a b)
           | |- context [(?a ?= ?b)%positive] => destruct (Pos.compare_spec a b)
           end; cbn; try discriminate; try reflexivity; intros; lia.
Qed.

Lemma float_lt_le_trans (x y z : float) :
  (x <? y)%float = true -> (y <=? z)%float = true -> (x <? z)%float = true.
Proof. rewrite !ltb_spec, leb_spec. apply SFlt_le_trans. Qed.

Lemma fee_international (amount : float) :
  get_fee_description amount = international_fee
  <-> (1000 <? amount)%float = true.
Proof.
  unfold get_fee_description. destruct (1000 <? amount)%float.
  - tauto.
  - split; discriminate.
Qed.

(** X12: the fee message is monotone in the amount: when an amount gets the
    international-fee message so does every amount not below it, and when an
    amount gets the standard-fee message so does every amount not above
    it. *)
Theorem fee_monotone (a b : float) :
  (a <=? b)%float = true ->
  (get_fee_description a = international_fee ->
   get_fee_description b = international_fee)
  /\ (get_fee_description b = standard_fee ->
      get_fee_description a = standard_fee).
Proof.
  intros Hab.
  assert (Hup : get_fee_description a = international_fee ->
                get_fee_description b = international_fee).
  { rewrite !fee_international. intros Ha.
    exact (float_lt_le_trans _ _ _ Ha Hab). }
  split; [exact Hup|].
  intros Hb. unfold get_fee_description in *.
  destruct (1000 <? a)%float; [|reflexivity].
  rewrite (Hup eq_refl) in Hb. discriminate.
Qed.

Lemma fee_monotone_witness :
  (1500 <=? 2000)%float = true
  /\ (get_fee_description 1500 = international_fee ->
      get_fee_description 2000 = international_fee)
  /\ (get_fee_description 2000 = standard_fee ->
      get_fee_description 1500 = standard_fee).
Proof. split; [reflexivity|]. exact (fee_monotone 1500 2000 eq_refl). Defined.

(** ** Further properties: the order of the log names *)

Lemma digit_compare (x y : N) :
  Ascii.compare (dec_digit x) (dec_digit y) = (x mod 10 ?= y mod 10)%N.
Proof.
  unfold Ascii.compare, dec_digit.
  assert (Hx : (x mod 10 < 10)%N) by (apply N.mod_upper_bound; discriminate).
  assert (Hy : (y mod 10 < 10)%N) by (apply N.mod_upper_bound; discriminate).
  rewrite !N_ascii_embedding by lia.
  destruct (N.compare_spec (48 + x mod 10) (48 + y mod 10));
    destruct (N.compare_spec (x mod 10) (y mod 10)); try reflexivity; lia.
Qed.

Lemma compare_same_head (c : ascii) (s t : string) :
  String.compare (String c s) (String c t) = String.compare s t.
Proof.
  cbn [String.compare]. unfold Ascii.compare. rewrite N.compare_refl.
  reflexivity.
Qed.

Lemma compare_pad2 (x y : N) (s t : string) :
  (x < 100)%N -> (y < 100)%N ->
  String.compare (String (dec_digit (x / 10)) (String (dec_digit x) s))
                 (String (dec_digit (y / 10)) (String (dec_digit y) t))
  = match (x ?= y)%N with
    | Eq => String.compare s t
    | c => c
    end.
Proof.
  intros Hx Hy. cbn [String.compare]. rewrite !digit_compare.
  pose proof (digits2 x Hx) as Ex. pose proof (digits2 y Hy) as Ey.
  assert (Bx1 : ((x / 10) mod 10 < 10)%N)
    by (apply N.mod_upper_bound; discriminate).
  assert (By1 : ((y / 10) mod 10 < 10)%N)
    by (apply N.mod_upper_bound; discriminate).
  assert (Bx0 : (x mod 10 < 10)%N) by (apply N.mod_upper_bound; discriminate).
  assert (By0 : (y mod 10 < 10)%N) by (apply N.mod_upper_bound; discriminate).
  set (x1 := ((x / 10) mod 10)%N) in *. set (x0 := (x mod 10)%N) in *.
  set (y1 := ((y / 10) mod 10)%N) in *. set (y0 := (y mod 10)%N) in *.
  clearbody x1 x0 y1 y0.
  destruct (N.compare_spec x1 y1); destruct (N.compare_spec x0 y0);
    destruct (N.compare_spec x y); try reflexivity; lia.
Qed.

Lemma compare_pad4 (x y : N) (s t : string) :
  (x < 10000)%N -> (y < 10000)%N ->
  String.compare
    (String (dec_digit (x / 1000)) (String (dec_digit (x / 100))
       (String (dec_digit (x / 10)) (String (dec_digit x) s))))
    (String (dec_digit (y / 1000)) (String (dec_digit (y / 100))
       (String (dec_digit (y / 10)) (String (dec_digit y) t))))
  = match (x ?= y)%N with
    | Eq => String.compare s t
    | c => c
    end.
Proof.
  intros Hx Hy. cbn [String.compare]. rewrite !digit_compare.
  pose proof (digits4 x Hx) as Ex. pose proof (digits4 y Hy) as Ey.
  assert (B : forall n, (n mod 10 < 10)%N)
    by (intros n; apply N.mod_upper_bound; discriminate).
  pose proof (B (x / 1000)%N). pose proof (B (y / 1000)%N).
  pose proof (B (x / 100)%N). pose proof (B (y / 100)%N).
  pose proof (B (x / 10)%N). pose proof (B (y / 10)%N).
  pose proof (B x). pose proof (B y). clear B.
  set (x3 := ((x / 1000) mod 10)%N) in *. set (y3 := ((y / 1000) mod 10)%N) in *.
  set (x2 := ((x / 100) mod 10)%N) in *. set (y2 := ((y / 100) mod 10)%N) in *.
  set (x1 := ((x / 10) mod 10)%N) in *. set (y1 := ((y / 10) mod 10)%N) in *.
  set (x0 := (x mod 10)%N) in *. set (y0 := (y mod 10)%N) in *.
  clearbody x3 x2 x1 x0 y3 y2 y1 y0.
  destruct (N.compare_spec x3 y3); destruct (N.compare_spec x2 y2);
    destruct (N.compare_spec x1 y1); destruct (N.compare_spec x0 y0);
    destruct (N.compare_spec x y); try reflexivity; lia.
Qed.

(** X13: the names of the logs sort as the runs do: for two start times
    with four-digit years, comparing the two names character by character
    gives the order of the two instants to the minute. *)
Theorem log_names_sort_by_time (a b : datetime) :
  valid_datetime a -> valid_datetime b ->
  String.compare (log_filename a) (log_filename b) = minute_compare a b.
Proof.
  intros (Hy & Hm & Hd & HH & HM & _) (Hy' & Hm' & Hd' & HH' & HM' & _).
  unfold log_filename, strftime, pad4, pad2, minute_compare.
  cbv [String.append]. rewrite !compare_same_head.
  rewrite compare_pad4 by lia.
  destruct (year a ?= year b)%N; try reflexivity.
  rewrite compare_pad2 by lia.
  destruct (month a ?= month b)%N; try reflexivity.
  rewrite compare_pad2 by lia.
  destruct (day a ?= day b)%N; try reflexivity.
  rewrite compare_same_head.
  rewrite compare_pad2 by lia.
  destruct (hour a ?= hour b)%N; try reflexivity.
  rewrite compare_pad2 by lia.
  destruct (minute a ?= minute b)%N; reflexivity.
Qed.

Lemma log_names_sort_by_time_witness :
  String.compare (log_filename sample_time)
    (log_filename {| year := 2024; month := 1; day := 2; hour := 3;
                     minute := 4; second := 5; microsecond := 6 |})
  = minute_compare sample_time
      {| year := 2024; month := 1; day := 2; hour := 3;
         minute := 4; second := 5; microsecond := 6 |}.
Proof.
  apply log_names_sort_by_time; unfold valid_datetime; cbn; lia.
Defined.
